(** * Template detection and overlay mapping of app.js

    A shallow embedding of the detection core of [src/app.js]:
    the grayscale conversion and the sliding-window matcher of
    [findTemplate], the lock counter of [startProcessing] and the
    "contain" mapping of [positionOverlay]; then the rest of the page
    around it: the frame loop, the bell and the timed GIF sequence, the
    reference crop of [setupTemplate] and the requests of [startCamera].

    JavaScript numbers are IEEE-754 doubles.  Values that stay integral in
    the program (pixel bytes, canvas sizes, loop indices, sums of absolute
    differences, counters) are [Z]; the luminance expression and the
    overlay geometry, where rounding is visible, are evaluated on Rocq's
    primitive binary64 floats; the score of a window, a quotient of two
    integers, is an exact rational (see [number]). *)

From Stdlib Require Import ZArith List Lia Bool QArith Qreduction.
From Stdlib Require Import Floats Uint63 Sorted.
From Stdlib Require String.
Import String.StringSyntax.
Delimit Scope string_scope with string.
Import ListNotations.

#[local] Set Warnings "-inexact-float".
#[local] Open Scope Z_scope.

(** ** Numbers *)

Module Num.

(** An integral JavaScript number as a double (exact below 2^53). *)
Definition of_Z (z : Z) : float :=
  if z <? 0 then PrimFloat.opp (PrimFloat.of_uint63 (Uint63.of_Z (- z)))
  else PrimFloat.of_uint63 (Uint63.of_Z z).

(** Reading a typed array: [None] is [undefined], whose numeric value
    is NaN. *)
Definition to_number (v : option Z) : float :=
  match v with
  | Some z => of_Z z
  | None => PrimFloat.nan
  end.

Definition wrap32 (z : Z) : Z :=
  (z + 2147483648) mod 4294967296 - 2147483648.

(** [f | 0], that is ToInt32: NaN and the infinities give 0, any other
    double is truncated toward zero and reduced modulo 2^32 into the
    signed range.  [frshiftexp] yields [f = m * 2^(e - 2101)] with
    [1/2 <= |m| < 1] and [normfr_mantissa m = |m| * 2^53]. *)
Definition to_int32 (f : float) : Z :=
  if PrimFloat.is_nan f || PrimFloat.is_infinity f then 0
  else
    let (m, e) := PrimFloat.frshiftexp f in
    let mag := Z.shiftl (Uint63.to_Z (PrimFloat.normfr_mantissa m))
                        (Uint63.to_Z e - 2154) in
    wrap32 (if PrimFloat.get_sign f then - mag else mag).

End Num.

(** ** Grayscale conversion (app.js 200-204 and 222-225) *)

(** [(r * 0.299 + g * 0.587 + b * 0.114) | 0] on three array reads. *)
Definition luminance (r g b : option Z) : Z :=
  Num.to_int32 (Num.to_number r * 0.299 + Num.to_number g * 0.587
                + Num.to_number b * 0.114)%float.

Definition gray (r g b : Z) : Z := luminance (Some r) (Some g) (Some b).

(** The spec's formula read over the reals:
    floor(0.299 R + 0.587 G + 0.114 B). *)
Definition gray_real_floor (r g b : Z) : Z :=
  (299 * r + 587 * g + 114 * b) / 1000.

(** An exhaustive check over all byte triples, run on machine integers. *)
Module GrayCheck.

#[local] Open Scope uint63_scope.

Definition bytes : list int :=
  map (fun n => Uint63.of_Z (Z.of_nat n)) (seq 0 256).

Definition expr (i j k : int) : float :=
  (PrimFloat.of_uint63 i * 0.299 + PrimFloat.of_uint63 j * 0.587
   + PrimFloat.of_uint63 k * 0.114)%float.

Definition trunc (f : float) : int :=
  let (m, e) := PrimFloat.frshiftexp f in
  PrimFloat.normfr_mantissa m >> (2154 - e).

Definition ok (i j k : int) : bool :=
  let f := expr i j k in
  let v := trunc f in
  let s := 299 * i + 587 * j + 114 * k in
  negb (PrimFloat.is_nan f) && negb (PrimFloat.is_infinity f)
  && negb (PrimFloat.get_sign f)
  && (snd (PrimFloat.frshiftexp f) <=? 2154)
  && (v <=? 255) && (1000 * v <=? s) && (s <? 1000 * v + 2000).

Definition forallb3 {A : Type} (p : A -> A -> A -> bool) (l : list A) : bool :=
  forallb (fun i => forallb (fun j => forallb (p i j) l) l) l.

End GrayCheck.

(** ** Data model *)

(** A 2D canvas and its RGBA backing store: four bytes per pixel, rows
    first, as [getImageData(0, 0, width, height).data] exposes it. *)
Record Canvas := {
  width : Z;
  height : Z;
  pixels : list Z
}.

(** The store of a canvas context holds exactly its pixels, as bytes. *)
Definition canvas_ok (c : Canvas) : Prop :=
  Z.of_nat (length (pixels c)) = 4 * width c * height c /\
  Forall (fun v => 0 <= v <= 255) (pixels c).

Inductive completion (A : Type) : Type :=
| Normal (a : A)
| IndexSizeError.
Arguments Normal {A} a.
Arguments IndexSizeError {A}.

(** [getImageData] raises IndexSizeError on an empty rectangle. *)
Definition getImageData (c : Canvas) : completion (list Z) :=
  if (width c =? 0) || (height c =? 0) then IndexSizeError
  else Normal (pixels c).

(** An indexed read of a typed array; [None] stands for [undefined]. *)
Definition read (a : list Z) (i : Z) : option Z :=
  if i <? 0 then None else nth_error a (Z.to_nat i).

(** A store into a [Uint8ClampedArray]. *)
Definition clamp8 (v : Z) : Z := Z.max 0 (Z.min 255 v).

(** The score is [sum / cnt] with [sum] and [cnt] integers: it is kept as
    an exact rational, next to the two special doubles the code can meet.
    The quotient of two such integers is at most 255 and two quotients with
    the same divisor differ by at least [1 / cnt], far above the spacing of
    doubles there, so the rounding of the division neither merges nor
    reorders scores; with the 64x64 template [cnt] is 1024 and the division
    is exact. *)
Inductive number : Type :=
| Fin (q : Q)
| PosInf
| NaN.

Definition Qltb (p q : Q) : bool :=
  (Qnum p * QDen q <? Qnum q * QDen p)%Z.

(** [a < b] on numbers: false as soon as one side is NaN. *)
Definition num_ltb (a b : number) : bool :=
  match a, b with
  | Fin p, Fin q => Qltb p q
  | Fin _, PosInf => true
  | _, _ => false
  end.

(** [sum / cnt]; [0 / 0] is NaN. *)
Definition num_div (sum cnt : Z) : number :=
  if cnt =? 0 then (if sum =? 0 then NaN else PosInf)
  else Fin (Qred (sum # Z.to_pos cnt)).

Module Box.
Record t := { x : Z; y : Z; w : Z; h : Z }.
End Box.

Module Match.
Record t := { x : Z; y : Z; score : number; box : option Box.t }.
End Match.

(** ** Processing constants (app.js 28-32) *)

Definition PROC_W : Z := 192.
Definition STEP : Z := 4.
Definition LOCK_FRAMES : Z := 6.
Definition MSE_THRESHOLD : number := Fin (inject_Z 2600).

(** ** TemplateMatcher: [findTemplate] (app.js 187-246) *)

(** The values taken by [i] in [for (i = start; i <= limit; i += step)].
    The fuel bounds the number of rounds; [limit - start + 1] rounds are
    enough as soon as [step >= 1] (with [step <= 0] the JavaScript loop
    does not end). *)
Fixpoint for_from (fuel : nat) (i limit step : Z) : list Z :=
  match fuel with
  | O => []
  | S fuel' =>
      if i <=? limit then i :: for_from fuel' (i + step) limit step else []
  end.

Definition for_upto (limit step : Z) : list Z :=
  for_from (Z.to_nat (limit + 1)) 0 limit step.

(** Lines 197-206: the grayscale template.  The running sum [tSum] and
    [tMean] of lines 198-207 are never read and are left out. *)
Definition template_gray (tData : list Z) (tw th : Z) : list Z :=
  map (fun n =>
         let i := Z.of_nat n in
         clamp8 (luminance (read tData (i * 4 + 0)) (read tData (i * 4 + 1))
                           (read tData (i * 4 + 2))))
      (seq 0 (Z.to_nat (tw * th))).

(** Line 210: the record the scan starts from. *)
Definition initial_best : Match.t :=
  {| Match.x := 0; Match.y := 0; Match.score := PosInf; Match.box := None |}.

Section Window.

Variables (fData : list Z) (fw : Z) (tGray : list Z) (tw th : Z).

(** Lines 218-228 for one sample [(tx, ty)] of the window at [(x, y)]:
    the absolute difference of the two luminances.  The read of [tGray]
    is always within its [tw * th] cells. *)
Definition abs_diff (x y ty tx : Z) : Z :=
  let fy := y + ty in
  let fx := x + tx in
  let fi := (fy * fw + fx) * 4 in
  let v := luminance (read fData (fi + 0)) (read fData (fi + 1))
                     (read fData (fi + 2)) in
  let ti := ty * tw + tx in
  let dv := v - nth (Z.to_nat ti) tGray 0 in
  Z.abs dv.

(** Lines 214-231: [sum] and [cnt] over every second row and column. *)
Definition window_sums (x y : Z) : Z * Z :=
  fold_left
    (fun acc ty =>
       fold_left
         (fun '(sum, cnt) tx => (sum + abs_diff x y ty tx, cnt + 1))
         (for_upto (tw - 1) 2) acc)
    (for_upto (th - 1) 2) (0, 0).

(** Line 232. *)
Definition mae (x y : Z) : number :=
  let '(sum, cnt) := window_sums x y in num_div sum cnt.

(** Lines 234-241. *)
Definition consider (best : Match.t) (x y : Z) : Match.t :=
  if num_ltb (mae x y) (Match.score best) then
    {| Match.x := x; Match.y := y; Match.score := mae x y;
       Match.box := Some {| Box.x := x; Box.y := y; Box.w := tw; Box.h := th |} |}
  else best.

(** Lines 210-243. *)
Definition slide (fh step : Z) : Match.t :=
  fold_left
    (fun best y =>
       fold_left (fun best x => consider best x y)
                 (for_upto (fw - tw) step) best)
    (for_upto (fh - th) step)
    initial_best.

End Window.

(** The result is an object reference, which the caller tests for null:
    [Some] of the record that [findTemplate] always returns. *)
Definition findTemplate (frame tmpl : Canvas) (step : Z)
  : completion (option Match.t) :=
  let fw := width frame in
  let fh := height frame in
  let tw := width tmpl in
  let th := height tmpl in
  match getImageData frame with
  | IndexSizeError => IndexSizeError
  | Normal fData =>
      match getImageData tmpl with
      | IndexSizeError => IndexSizeError
      | Normal tData =>
          let tGray := template_gray tData tw th in
          Normal (Some (slide fData fw tGray tw th fh step))
      end
  end.

(** The window offsets the scan visits, and their order: rows outside,
    columns inside. *)
Definition scanned (frame tmpl : Canvas) (step x y : Z) : Prop :=
  0 <= x <= width frame - width tmpl /\ (step | x) /\
  0 <= y <= height frame - height tmpl /\ (step | y).

Definition scan_before (p q : Z * Z) : Prop :=
  snd p < snd q \/ (snd p = snd q /\ fst p < fst q).

Definition scan_order (xs ys : list Z) : list (Z * Z) :=
  flat_map (fun y => map (fun x => (x, y)) xs) ys.

(** The score [findTemplate] computes for the window at [(x, y)]. *)
Definition score_at (frame tmpl : Canvas) (x y : Z) : number :=
  mae (pixels frame) (width frame)
      (template_gray (pixels tmpl) (width tmpl) (height tmpl))
      (width tmpl) (height tmpl) x y.

Definition Zsum (l : list Z) : Z := fold_right Z.add 0 l.


(** Small canvases to run the definitions on: a 1x1 frame, a 2x2 template,
    and a 6x2 frame whose last two columns are that template. *)
Definition frame_1x1 : Canvas :=
  {| width := 1; height := 1; pixels := [10; 20; 30; 255] |}.

Definition tmpl_2x2 : Canvas :=
  {| width := 2; height := 2;
     pixels := [200; 100; 50; 255;  0; 0; 0; 255;
                0; 0; 0; 255;  90; 90; 90; 255] |}.

Definition frame_6x2 : Canvas :=
  {| width := 6; height := 2;
     pixels := [9; 9; 9; 255;  9; 9; 9; 255;  9; 9; 9; 255;  9; 9; 9; 255;
                200; 100; 50; 255;  0; 0; 0; 255;
                9; 9; 9; 255;  9; 9; 9; 255;  9; 9; 9; 255;  9; 9; 9; 255;
                0; 0; 0; 255;  90; 90; 90; 255] |}.

(** ** DetectionStabilizer (app.js 155-162) *)

Record State := {
  detected : bool;
  stableCount : Z;
  lastBox : option Box.t
}.

(** [match && match.score < MSE_THRESHOLD]. *)
Definition is_hit (m : option Match.t) : bool :=
  match m with
  | Some r => num_ltb (Match.score r) MSE_THRESHOLD
  | None => false
  end.

Definition hit (m : option Match.t) : Prop := is_hit m = true.
Definition miss (m : option Match.t) : Prop := is_hit m = false.

Definition stabilize (m : option Match.t) (st : State) : State :=
  let '(count, last) :=
    match m with
    | Some r =>
        if num_ltb (Match.score r) MSE_THRESHOLD
        then (Z.min LOCK_FRAMES (stableCount st + 1), Match.box r)
        else (Z.max 0 (stableCount st - 1), lastBox st)
    | None => (Z.max 0 (stableCount st - 1), lastBox st)
    end in
  {| detected := LOCK_FRAMES - 1 <=? count;
     stableCount := count;
     lastBox := last |}.

(** The state the page starts in (lines 36-39). *)
Definition initial_state : State :=
  {| detected := false; stableCount := 0; lastBox := None |}.

(** A state whose counter is full, and two match results to run the
    stabilizer on: one that scores 0 and one that scores 3000. *)
Definition full_state : State :=
  {| detected := true; stableCount := 6; lastBox := None |}.

Definition match_at_4_0 : Match.t :=
  {| Match.x := 4; Match.y := 0; Match.score := Fin 0;
     Match.box := Some {| Box.x := 4; Box.y := 0; Box.w := 2; Box.h := 2 |} |}.

Definition poor_match : Match.t :=
  {| Match.x := 0; Match.y := 0; Match.score := Fin (inject_Z 3000);
     Match.box := Some {| Box.x := 0; Box.y := 0; Box.w := 2; Box.h := 2 |} |}.

(** The derived "locked" reading of a counter. *)
Definition locked (st : State) : bool := LOCK_FRAMES - 1 <=? stableCount st.

(** One processed frame (lines 153-162); an exception thrown by
    [findTemplate] ends the callback with the state untouched. *)
Definition tick (frame tmpl : Canvas) (st : State) : State :=
  match findTemplate frame tmpl STEP with
  | Normal m => stabilize m st
  | IndexSizeError => st
  end.

(** A run of the stabilizer over the match results of successive ticks. *)
Definition run (ms : list (option Match.t)) (st : State) : State :=
  fold_left (fun s m => stabilize m s) ms st.

(** ** CoordinateMapper: [positionOverlay] (app.js 248-289) *)

Module Rect.
(** [getBoundingClientRect()] of the video element. *)
Record t := { left : float; top : float; width : float; height : float }.
End Rect.

Module Overlay.
(** What is written to the overlay's style: [translate(px, py)], and the
    width and height. *)
Record t := { px : float; py : float; pw : float; ph : float }.
End Overlay.

Section Mapper.

#[local] Open Scope float_scope.

(** Lines 257-275: the size of the rendered video inside the element and
    its letterbox offsets, as [(renderW, renderH, offsetX, offsetY)]. *)
Definition rendered (vw vh : Z) (rect : Rect.t)
  : float * float * float * float :=
  let elW := Rect.width rect in
  let elH := Rect.height rect in
  let srcRatio := Num.of_Z vw / Num.of_Z vh in
  let elRatio := elW / elH in
  if elRatio <? srcRatio then
    let renderW := elW in
    let renderH := elW / srcRatio in
    (renderW, renderH, 0, (elH - renderH) / 2)
  else
    let renderH := elH in
    let renderW := elH * srcRatio in
    (renderW, renderH, (elW - renderW) / 2, 0).

Definition positionOverlay (vw vh : Z) (rect : Rect.t)
           (box : Box.t) (procW procH : Z) : Overlay.t :=
  let '(renderW, renderH, offsetX, offsetY) := rendered vw vh rect in
  let sx := renderW / Num.of_Z procW in
  let sy := renderH / Num.of_Z procH in
  {| Overlay.px := Rect.left rect + offsetX + Num.of_Z (Box.x box) * sx;
     Overlay.py := Rect.top rect + offsetY + Num.of_Z (Box.y box) * sy;
     Overlay.pw := Num.of_Z (Box.w box) * sx;
     Overlay.ph := Num.of_Z (Box.h box) * sy |}.

(** The "contain" fit as the specification words it, case by case. *)
Definition contain_renderedWidth (vw vh : Z) (elW elH : float) : float :=
  if elW / elH <? Num.of_Z vw / Num.of_Z vh then elW
  else elH * (Num.of_Z vw / Num.of_Z vh).

Definition contain_renderedHeight (vw vh : Z) (elW elH : float) : float :=
  if elW / elH <? Num.of_Z vw / Num.of_Z vh
  then elW / (Num.of_Z vw / Num.of_Z vh)
  else elH.

Definition contain_offsetX (vw vh : Z) (elW elH : float) : float :=
  if elW / elH <? Num.of_Z vw / Num.of_Z vh then 0
  else (elW - contain_renderedWidth vw vh elW elH) / 2.

Definition contain_offsetY (vw vh : Z) (elW elH : float) : float :=
  if elW / elH <? Num.of_Z vw / Num.of_Z vh
  then (elH - contain_renderedHeight vw vh elW elH) / 2
  else 0.

End Mapper.

(** ** The processing canvas (app.js 139-147) *)

Module Math.

(** [Math.round] of a finite double, as the integer it denotes: the
    nearest integer, a half going up, that is floor(f + 1/2) computed
    exactly from the mantissa and exponent.  NaN and the infinities, which
    [Math.round] hands back as they are and which the size of a canvas
    turns into 0, are mapped to 0. *)
Definition round (f : float) : Z :=
  if PrimFloat.is_nan f || PrimFloat.is_infinity f then 0
  else
    let (m, e) := PrimFloat.frshiftexp f in
    let mant := Uint63.to_Z (PrimFloat.normfr_mantissa m) in
    let twice := Z.shiftl (if PrimFloat.get_sign f then - mant else mant)
                          (Uint63.to_Z e - 2153) in
    Z.shiftr (twice + 1) 1.

End Math.

Definition FPS : Z := 10.

(** Line 129. *)
Definition tickInterval : float := (1000 / Num.of_Z FPS)%float.

(** Lines 142-144: [ph = Math.round(pw / (vw / vh))] with [pw = PROC_W]. *)
Definition frame_height (vw vh : Z) : Z :=
  Math.round (Num.of_Z PROC_W / (Num.of_Z vw / Num.of_Z vh))%float.

(** An exhaustive check of [frame_height] over the video sizes up to
    4096 x 4096, run on machine integers. *)
Module HeightCheck.

#[local] Open Scope uint63_scope.

Definition sizes : list int :=
  map (fun n => Uint63.of_Z (Z.of_nat n)) (seq 1 4096).

Definition quotient (vw vh : int) : float :=
  (PrimFloat.of_uint63 192 / (PrimFloat.of_uint63 vw / PrimFloat.of_uint63 vh))%float.

Definition twice (f : float) : int :=
  let (m, e) := PrimFloat.frshiftexp f in
  PrimFloat.normfr_mantissa m >> (2153 - e).

Definition ok (vw vh : int) : bool :=
  let f := quotient vw vh in
  let t := twice f in
  let ph := (t + 1) >> 1 in
  negb (PrimFloat.is_nan f) && negb (PrimFloat.is_infinity f)
  && negb (PrimFloat.get_sign f)
  && (snd (PrimFloat.frshiftexp f) <=? 2153)
  && (t <? 1152921504606846976)
  && (192 * vh / vw <=? ph) && (ph <=? (384 * vh + vw) / (2 * vw)).

Definition forallb2 {A : Type} (p : A -> A -> bool) (l : list A) : bool :=
  forallb (fun i => forallb (p i) l) l.

End HeightCheck.

(** ** The reference image (app.js 107-126) *)







(** ** The camera (app.js 88-105) *)

Inductive Constraints : Type :=
| ExactEnvironment   (* facingMode: { exact: "environment" } *)
| Environment        (* facingMode: "environment" *)
| AnyCamera.         (* video: true *)

Definition constraintsList : list Constraints :=
  [ExactEnvironment; Environment; AnyCamera].

Section Camera.

(** The answer of [getUserMedia] to a request: a stream, or a rejection. *)
Variables (Stream : Type) (getUserMedia : Constraints -> option Stream).

Record CameraResult := {
  stream : option Stream;        (* the global [stream] *)
  asked : list Constraints;      (* the requests made, in order *)
  alerted : bool                 (* "Unable to access camera." was shown *)
}.

(** The [for] loop of lines 94-103 over the constraints still to try;
    [tried] holds the requests already made. *)
Fixpoint try_constraints (cs tried : list Constraints) : CameraResult :=
  match cs with
  | [] => {| stream := None; asked := tried; alerted := true |}
  | c :: cs' =>
      match getUserMedia c with
      | Some s => {| stream := Some s; asked := tried ++ [c]; alerted := false |}
      | None => try_constraints cs' (tried ++ [c])
      end
  end.

Definition startCamera : CameraResult := try_constraints constraintsList [].

End Camera.

Arguments stream {Stream} c.
Arguments asked {Stream} c.
Arguments alerted {Stream} c.

(** ** The page: state, loop and handlers (app.js 34-40, 128-185, 291-344) *)

Inductive Gif : Type := gif1 | gif2 | gif3.

(** What the handlers write to the document: the hint text, the [hidden]
    class of the bell, of the three GIFs and of the fallback, and the
    style of the overlay ([None] while it has not been positioned). *)
Record Ui := {
  hint : String.string;
  bell_hidden : bool;
  gif1_hidden : bool;
  gif2_hidden : bool;
  gif3_hidden : bool;
  fallback_hidden : bool;
  overlay : option Overlay.t
}.

(** The globals [playing], [detected], [stableCount], [lastBox], the
    variable [last] of [startProcessing], and the document.  The audio
    element and the handles of timers and animation frames are left out:
    no branch of the code reads them. *)
Record Page := {
  playing : bool;
  core : State;
  last : float;
  ui : Ui
}.

(** What one animation frame brings: its timestamp, the intrinsic size of
    the video, the bytes [drawImage] leaves on the processing canvas and
    the bounding rectangle of the video element. *)
Record FrameInput := {
  now : float;
  videoWidth : Z;
  videoHeight : Z;
  drawn : list Z;
  rect : Rect.t
}.

Definition set_hint_bell (text : String.string) (hidden : bool) (u : Ui) : Ui :=
  {| hint := text; bell_hidden := hidden;
     gif1_hidden := gif1_hidden u; gif2_hidden := gif2_hidden u;
     gif3_hidden := gif3_hidden u; fallback_hidden := fallback_hidden u;
     overlay := overlay u |}.

Definition set_overlay (o : Overlay.t) (u : Ui) : Ui :=
  {| hint := hint u; bell_hidden := bell_hidden u;
     gif1_hidden := gif1_hidden u; gif2_hidden := gif2_hidden u;
     gif3_hidden := gif3_hidden u; fallback_hidden := fallback_hidden u;
     overlay := Some o |}.

(** Lines 164-173. *)
Definition update_hint (is_playing : bool) (st : State) (u : Ui) : Ui :=
  if detected st then
    set_hint_bell "Target found! Tap the bell to start."%string false u
  else if is_playing then u
  else set_hint_bell "Align the camera so the image fills the view"%string true u.

(** Lines 175-181. *)
Definition anchor_overlay (is_playing : bool) (st : State)
           (vw vh : Z) (r : Rect.t) (pw ph : Z) (u : Ui) : Ui :=
  match lastBox st with
  | Some b =>
      if is_playing || detected st
      then set_overlay (positionOverlay vw vh r b pw ph) u
      else u
  | None => u
  end.

(** The processing canvas of a frame (lines 140-150).  The canvas takes
    the height as it is: for the video sizes considered below it is an
    integer from 0 to 2^31 - 1. *)
Definition proc_canvas (f : FrameInput) : Canvas :=
  {| width := PROC_W;
     height := frame_height (videoWidth f) (videoHeight f);
     pixels := drawn f |}.

(** [loop] (lines 132-182) on the template canvas [tmpl].  An exception
    of [findTemplate] ends the callback where it is raised. *)
Definition loop (tmpl : Canvas) (f : FrameInput) (pg : Page) : Page :=
  if (now f - last pg <? tickInterval)%float then pg
  else
    let vw := videoWidth f in
    let vh := videoHeight f in
    if (vw =? 0) || (vh =? 0) then
      {| playing := playing pg; core := core pg; last := now f; ui := ui pg |}
    else
      let pw := PROC_W in
      let ph := frame_height vw vh in
      match findTemplate (proc_canvas f) tmpl STEP with
      | IndexSizeError =>
          {| playing := playing pg; core := core pg; last := now f; ui := ui pg |}
      | Normal m =>
          let st := stabilize m (core pg) in
          {| playing := playing pg;
             core := st;
             last := now f;
             ui := anchor_overlay (playing pg) st vw vh (rect f) pw ph
                     (update_hint (playing pg) st (ui pg)) |}
      end.

(** [showOnly] (lines 327-331); [None] is a null argument. *)
Definition showOnly (showEl : option Gif) (u : Ui) : Ui :=
  {| hint := hint u; bell_hidden := bell_hidden u;
     gif1_hidden := match showEl with Some gif1 => false | _ => true end;
     gif2_hidden := match showEl with Some gif2 => false | _ => true end;
     gif3_hidden := match showEl with Some gif3 => false | _ => true end;
     fallback_hidden := true;
     overlay := overlay u |}.

(** The click handler of the bell up to its [await] (lines 292-300). *)
Definition bell_click (pg : Page) : Page :=
  if negb (detected (core pg)) || playing pg then pg
  else
    {| playing := true; core := core pg; last := last pg;
       ui := set_hint_bell "Playing sequence…"%string true (ui pg) |}.

(** The rest of the click handler, once [musicEl.play()] has settled
    (lines 306-313): the first GIF; the other two and [endAR] are left to
    timers. *)
Definition bell_resume (pg : Page) : Page :=
  {| playing := playing pg; core := core pg; last := last pg;
     ui := showOnly (Some gif1) (ui pg) |}.

Definition show_gif (g : Gif) (pg : Page) : Page :=
  {| playing := playing pg; core := core pg; last := last pg;
     ui := showOnly (Some g) (ui pg) |}.

(** [endAR] (lines 333-344). *)
Definition endAR (pg : Page) : Page :=
  let u := ui pg in
  {| playing := false; core := core pg; last := last pg;
     ui := {| hint := "AR finished. Align again to restart."%string;
              bell_hidden := bell_hidden u;
              gif1_hidden := true; gif2_hidden := true; gif3_hidden := true;
              fallback_hidden := true;
              overlay := overlay u |} |}.

(** The [error] handler of a GIF (lines 43-52). *)
Definition gif_error (g : Gif) (pg : Page) : Page :=
  let u := ui pg in
  {| playing := playing pg; core := core pg; last := last pg;
     ui := {| hint := hint u; bell_hidden := bell_hidden u;
              gif1_hidden := match g with gif1 => true | _ => gif1_hidden u end;
              gif2_hidden := match g with gif2 => true | _ => gif2_hidden u end;
              gif3_hidden := match g with gif3 => true | _ => gif3_hidden u end;
              fallback_hidden := false;
              overlay := overlay u |} |}.

(** The callbacks the page registers.  Any order of them is allowed
    here; the browser runs them one at a time. *)
Inductive Event : Type :=
| AnimationFrame (f : FrameInput)
| BellClick
| PlaySettled
| Timer5s
| Timer10s
| Timer15s
| GifError (g : Gif).

Definition handle (tmpl : Canvas) (ev : Event) (pg : Page) : Page :=
  match ev with
  | AnimationFrame f => loop tmpl f pg
  | BellClick => bell_click pg
  | PlaySettled => bell_resume pg
  | Timer5s => show_gif gif2 pg
  | Timer10s => show_gif gif3 pg
  | Timer15s => endAR pg
  | GifError g => gif_error g pg
  end.

Definition run_events (tmpl : Canvas) (evs : list Event) (pg : Page) : Page :=
  fold_left (fun p ev => handle tmpl ev p) evs pg.

(** The page as the script starts it (lines 35-39), on a document [u]. *)
Definition initial_page (u : Ui) : Page :=
  {| playing := false; core := initial_state; last := 0%float; ui := u |}.

(** The stabilizer over the frames of successive ticks. *)
Definition run_ticks (tmpl : Canvas) (frames : list Canvas) (st : State) : State :=
  fold_left (fun s frame => tick frame tmpl s) frames st.

(** How many GIFs are shown. *)
Definition gifs_shown (u : Ui) : nat :=
  (if gif1_hidden u then 0 else 1) + (if gif2_hidden u then 0 else 1)
  + (if gif3_hidden u then 0 else 1).

(** A box of the template's size on the search grid of a frame of width
    PROC_W. *)
Definition box_on_grid (tmpl : Canvas) (b : Box.t) : Prop :=
  Box.w b = width tmpl /\ Box.h b = height tmpl /\
  0 <= Box.x b <= PROC_W - width tmpl /\ (STEP | Box.x b) /\
  0 <= Box.y b /\ (STEP | Box.y b).

(** What every handler keeps true of the page. *)
Definition page_inv (tmpl : Canvas) (pg : Page) : Prop :=
  0 <= stableCount (core pg) <= LOCK_FRAMES /\
  detected (core pg) = locked (core pg) /\
  (0 < stableCount (core pg) -> lastBox (core pg) <> None) /\
  (playing pg = true -> lastBox (core pg) <> None) /\
  (overlay (ui pg) <> None -> lastBox (core pg) <> None) /\
  (forall b, lastBox (core pg) = Some b -> box_on_grid tmpl b).

(** Frames that are each processed: none comes less than [tickInterval]
    after the one before ([prev] is the value of [last] they start from). *)
Fixpoint spaced (prev : float) (fs : list FrameInput) : Prop :=
  match fs with
  | [] => True
  | f :: fs' =>
      (now f - prev <? tickInterval)%float = false /\ spaced (now f) fs'
  end.

(** A frame of a video, of a size up to 4096 x 4096, whose processing
    canvas takes the template and holds its bytes. *)
Definition fits (tmpl : Canvas) (f : FrameInput) : Prop :=
  1 <= videoWidth f <= 4096 /\ 1 <= videoHeight f <= 4096 /\
  height tmpl * videoWidth f <= 192 * videoHeight f /\
  canvas_ok (proc_canvas f).

(** An event that is no frame, or the frame of a video that is not ready,
    or of one so wide that its processing canvas is lower than the
    template. *)
Definition no_fitting_frame (tmpl : Canvas) (ev : Event) : Prop :=
  match ev with
  | AnimationFrame f =>
      videoWidth f = 0 \/ videoHeight f = 0 \/
      (1 <= videoWidth f <= 4096 /\ 1 <= videoHeight f <= 4096 /\
       384 * videoHeight f + videoWidth f < 2 * height tmpl * videoWidth f)
  | _ => True
  end.

(** Two canvases of the same size whose pixels agree, in red, green and
    blue, wherever both coordinates are even. *)
Definition same_samples (a b : Canvas) : Prop :=
  width a = width b /\ height a = height b /\
  forall px py c,
    0 <= px < width a -> 0 <= py < height a ->
    (2 | px) -> (2 | py) -> 0 <= c < 3 ->
    read (pixels a) ((py * width a + px) * 4 + c) =
    read (pixels b) ((py * width a + px) * 4 + c).

(** The 6x2 frame with other bytes at odd columns, on the second row and
    in the alpha channel. *)
Definition frame_6x2_odd : Canvas :=
  {| width := 6; height := 2;
     pixels := [9; 9; 9; 0;  1; 2; 3; 4;  9; 9; 9; 255;  77; 7; 7; 7;
                200; 100; 50; 255;  255; 255; 255; 255;
                5; 5; 5; 5;  6; 6; 6; 6;  7; 7; 7; 7;  8; 8; 8; 8;
                1; 1; 1; 1;  2; 2; 2; 2] |}.

(** A frame of a 4096 x 43 video at time [t]: its processing canvas is
    192 x 2, here all black; and a document with nothing shown. *)
Definition black_frame (t : float) : FrameInput :=
  {| now := t; videoWidth := 4096; videoHeight := 43;
     drawn := repeat 0 1536;
     rect := {| Rect.left := 0; Rect.top := 0;
                Rect.width := 360; Rect.height := 360 |} |}.

Definition blank_ui : Ui :=
  {| hint := ""%string; bell_hidden := true;
     gif1_hidden := true; gif2_hidden := true; gif3_hidden := true;
     fallback_hidden := true; overlay := None |}.

(** The four [hidden] flags of the GIFs and of the fallback. *)
Definition gif_flags (u : Ui) : bool * bool * bool * bool :=
  (gif1_hidden u, gif2_hidden u, gif3_hidden u, fallback_hidden u).

(** The callbacks that go on during playback: frames and clicks. *)
Definition background (ev : Event) : Prop :=
  match ev with
  | AnimationFrame _ | BellClick => True
  | _ => False
  end.

(** ** The score in the words of the specification *)

(** The luminance of the pixel [(px, py)] of a canvas: the conversion of
    its red, green and blue bytes. *)
Definition pixel_luminance (c : Canvas) (px py : Z) : Z :=
  let i := Z.to_nat ((py * width c + px) * 4) in
  gray (nth i (pixels c) 0) (nth (i + 1) (pixels c) 0)
       (nth (i + 2) (pixels c) 0).

(** Every second index below [n]: 0, 2, 4, ... *)
Definition sampled (n : Z) : list Z :=
  map (fun k => 2 * Z.of_nat k) (seq 0 (Z.to_nat ((n + 1) / 2))).

(** The sub-sampled mean absolute error of the window at [(x, y)]: the
    absolute differences between the luminance of the template and that
    of the frame under it, over every second row and every second column
    of the template, added up and divided by their number. *)
Definition sub_sampled_mae (frame tmpl : Canvas) (x y : Z) : Q :=
  Zsum (map (fun ty =>
               Zsum (map (fun tx =>
                            Z.abs (pixel_luminance frame (x + tx) (y + ty)
                                   - pixel_luminance tmpl tx ty))
                         (sampled (width tmpl))))
            (sampled (height tmpl)))
  # Z.to_pos (Z.of_nat (length (sampled (height tmpl)))
              * Z.of_nat (length (sampled (width tmpl)))).

(** * Properties *)

(** ** Grayscale conversion *)

Section GrayFacts.

Import GrayCheck.

Lemma forallb3_In {A : Type} (p : A -> A -> A -> bool) (l : list A) :
  forallb3 p l = true ->
  forall i j k, In i l -> In j l -> In k l -> p i j k = true.
Proof.
  unfold forallb3. intros H i j k Hi Hj Hk.
  rewrite forallb_forall in H. specialize (H i Hi).
  rewrite forallb_forall in H. specialize (H j Hj).
  rewrite forallb_forall in H. exact (H k Hk).
Qed.

(** Every byte triple passes the check. *)
Lemma ok_all_bytes : forallb3 ok bytes = true.
Proof. vm_cast_no_check (eq_refl true). Qed.

Lemma byte_in_bytes (z : Z) :
  0 <= z <= 255 -> In (Uint63.of_Z z) bytes.
Proof.
  intros Hz. unfold bytes.
  replace z with (Z.of_nat (Z.to_nat z)) by lia.
  apply in_map with (f := fun n => Uint63.of_Z (Z.of_nat n)).
  apply in_seq. lia.
Qed.

Lemma to_Z_byte (z : Z) : 0 <= z <= 255 -> Uint63.to_Z (Uint63.of_Z z) = z.
Proof.
  intros Hz. rewrite Uint63.of_Z_spec. apply Z.mod_small.
  change wB with 9223372036854775808. lia.
Qed.

Lemma ok_bytes (r g b : Z) :
  0 <= r <= 255 -> 0 <= g <= 255 -> 0 <= b <= 255 ->
  ok (Uint63.of_Z r) (Uint63.of_Z g) (Uint63.of_Z b) = true.
Proof.
  intros Hr Hg Hb.
  apply (forallb3_In ok bytes ok_all_bytes); apply byte_in_bytes; assumption.
Qed.

Lemma wrap32_small (z : Z) : 0 <= z <= 255 -> Num.wrap32 z = z.
Proof.
  intros Hz. unfold Num.wrap32.
  rewrite Z.mod_small by lia. lia.
Qed.

Lemma to_int32_trunc (f : float) :
  PrimFloat.is_nan f = false ->
  PrimFloat.is_infinity f = false ->
  PrimFloat.get_sign f = false ->
  (snd (PrimFloat.frshiftexp f) <=? 2154)%uint63 = true ->
  (trunc f <=? 255)%uint63 = true ->
  Num.to_int32 f = Uint63.to_Z (trunc f).
Proof.
  intros Hnan Hinf Hsign He Hv.
  unfold Num.to_int32, trunc in *.
  rewrite Hnan, Hinf, Hsign. cbn [orb].
  destruct (PrimFloat.frshiftexp f) as [m e]. cbn [snd] in He.
  apply Uint63.leb_spec in He, Hv.
  change (Uint63.to_Z 2154) with 2154 in He.
  change (Uint63.to_Z 255) with 255 in Hv.
  pose proof (Uint63.to_Z_bounded e) as Be.
  pose proof (Uint63.to_Z_bounded (PrimFloat.normfr_mantissa m >> (2154 - e))) as Bv.
  assert (Hsub : Uint63.to_Z (2154 - e)%uint63 = 2154 - Uint63.to_Z e).
  { rewrite Uint63.sub_spec. change (Uint63.to_Z 2154) with 2154.
    apply Z.mod_small. change wB with 9223372036854775808. lia. }
  assert (Hmag : Z.shiftl (Uint63.to_Z (PrimFloat.normfr_mantissa m))
                          (Uint63.to_Z e - 2154)
                 = Uint63.to_Z (PrimFloat.normfr_mantissa m >> (2154 - e))).
  { rewrite Uint63.lsr_spec, Hsub.
    replace (Uint63.to_Z e - 2154) with (- (2154 - Uint63.to_Z e)) by lia.
    rewrite Z.shiftl_opp_r. apply Z.shiftr_div_pow2. lia. }
  rewrite Hmag. apply wrap32_small. lia.
Qed.

(** On bytes the conversion stays in [0,255] and is the exact floor or
    one below it. *)
Lemma gray_bounds (r g b : Z) :
  0 <= r <= 255 -> 0 <= g <= 255 -> 0 <= b <= 255 ->
  0 <= gray r g b <= 255 /\
  gray_real_floor r g b - 1 <= gray r g b <= gray_real_floor r g b.
Proof.
  intros Hr Hg Hb.
  pose proof (ok_bytes r g b Hr Hg Hb) as Hok.
  unfold ok in Hok.
  repeat (apply andb_prop in Hok; destruct Hok as [Hok ?]).
  rewrite negb_true_iff in *.
  assert (Hgray : gray r g b
                  = Uint63.to_Z (trunc (expr (Uint63.of_Z r) (Uint63.of_Z g)
                                             (Uint63.of_Z b)))).
  { unfold gray, luminance, Num.to_number, Num.of_Z.
    replace (r <? 0) with false by (symmetry; apply Z.ltb_ge; lia).
    replace (g <? 0) with false by (symmetry; apply Z.ltb_ge; lia).
    replace (b <? 0) with false by (symmetry; apply Z.ltb_ge; lia).
    apply to_int32_trunc; assumption. }
  rewrite Hgray.
  set (v := trunc _) in *.
  match goal with H : (v <=? 255)%uint63 = true |- _ =>
    apply Uint63.leb_spec in H; change (Uint63.to_Z 255) with 255 in H;
    rename H into Hv end.
  match goal with H : (_ <=? _)%uint63 = true |- _ =>
    apply Uint63.leb_spec in H; rename H into Hlo end.
  match goal with H : (_ <? _)%uint63 = true |- _ =>
    apply Uint63.ltb_spec in H; rename H into Hhi end.
  pose proof (Uint63.to_Z_bounded v) as Bv.
  assert (Hs : Uint63.to_Z (299 * Uint63.of_Z r + 587 * Uint63.of_Z g
                            + 114 * Uint63.of_Z b)%uint63
               = 299 * r + 587 * g + 114 * b).
  { rewrite !Uint63.add_spec, !Uint63.mul_spec, !to_Z_byte by assumption.
    change (Uint63.to_Z 299) with 299. change (Uint63.to_Z 587) with 587.
    change (Uint63.to_Z 114) with 114. change wB with 9223372036854775808.
    rewrite !(Z.mod_small (_ * _)) by lia.
    rewrite (Z.mod_small (299 * r + 587 * g)) by lia.
    apply Z.mod_small. lia. }
  rewrite Hs in Hlo, Hhi.
  rewrite Uint63.mul_spec in Hlo.
  rewrite Uint63.add_spec, Uint63.mul_spec in Hhi.
  change (Uint63.to_Z 1000) with 1000 in *.
  change (Uint63.to_Z 2000) with 2000 in *.
  change wB with 9223372036854775808 in *.
  rewrite (Z.mod_small (1000 * _)) in Hlo, Hhi by lia.
  rewrite Z.mod_small in Hhi by lia.
  unfold gray_real_floor.
  pose proof (Z.div_le_lower_bound (299 * r + 587 * g + 114 * b) 1000
                (Uint63.to_Z v) ltac:(lia) Hlo) as Hfloor_lo.
  assert (Hfloor_hi : (299 * r + 587 * g + 114 * b) / 1000 < Uint63.to_Z v + 2)
    by (apply Z.div_lt_upper_bound; lia).
  lia.
Qed.

End GrayFacts.

(** ** CoordinateMapper *)

(** C2: for every box, video resolution and element rectangle the overlay
    written by [positionOverlay] is the "contain" rectangle of the
    specification: left + offsetX + x*sx, top + offsetY + y*sy, w*sx, h*sy
    with sx = renderedWidth / processingWidth and sy = renderedHeight /
    processingHeight; and for a 1920x1080 video in a 360x360 element the
    rendered size is 360 x 202.5 with offsets 0 and 78.75, and the box
    (0,0,64,64) of a 192x108 processing canvas maps to width and height
    120. *)
Theorem positionOverlay_contain :
  (forall (vw vh : Z) (rect : Rect.t) (box : Box.t) (procW procH : Z),
      let elW := Rect.width rect in
      let elH := Rect.height rect in
      let sx := (contain_renderedWidth vw vh elW elH / Num.of_Z procW)%float in
      let sy := (contain_renderedHeight vw vh elW elH / Num.of_Z procH)%float in
      positionOverlay vw vh rect box procW procH =
      {| Overlay.px := (Rect.left rect + contain_offsetX vw vh elW elH
                        + Num.of_Z (Box.x box) * sx)%float;
         Overlay.py := (Rect.top rect + contain_offsetY vw vh elW elH
                        + Num.of_Z (Box.y box) * sy)%float;
         Overlay.pw := (Num.of_Z (Box.w box) * sx)%float;
         Overlay.ph := (Num.of_Z (Box.h box) * sy)%float |}) /\
  (forall elLeft elTop : float,
      let rect := {| Rect.left := elLeft; Rect.top := elTop;
                     Rect.width := 360; Rect.height := 360 |} in
      let box := {| Box.x := 0; Box.y := 0; Box.w := 64; Box.h := 64 |} in
      rendered 1920 1080 rect = (360, 202.5, 0, 78.75)%float /\
      PROC_W = 192 /\
      Overlay.pw (positionOverlay 1920 1080 rect box PROC_W 108) = 120%float /\
      Overlay.ph (positionOverlay 1920 1080 rect box PROC_W 108) = 120%float).
Proof.
  split.
  - intros vw vh rect box procW procH. cbv zeta.
    unfold positionOverlay, rendered, contain_offsetX, contain_offsetY,
      contain_renderedWidth, contain_renderedHeight.
    destruct (PrimFloat.ltb (Rect.width rect / Rect.height rect)
                            (Num.of_Z vw / Num.of_Z vh)); reflexivity.
  - intros elLeft elTop. cbv zeta.
    repeat split; vm_compute; reflexivity.
Qed.

(** ** DetectionStabilizer *)

Section Stabilizer.

Lemma stabilize_count (m : option Match.t) (st : State) :
  stableCount (stabilize m st) =
  if is_hit m then Z.min LOCK_FRAMES (stableCount st + 1)
  else Z.max 0 (stableCount st - 1).
Proof.
  unfold stabilize, is_hit.
  destruct m as [r|]; [destruct (num_ltb _ _)|]; reflexivity.
Qed.

Lemma stabilize_detected (m : option Match.t) (st : State) :
  detected (stabilize m st) = locked (stabilize m st).
Proof.
  unfold stabilize, locked.
  destruct m as [r|]; [destruct (num_ltb _ _)|]; reflexivity.
Qed.

Lemma stabilize_lastBox (m : option Match.t) (st : State) :
  lastBox (stabilize m st) =
  match m with
  | Some r => if is_hit m then Match.box r else lastBox st
  | None => lastBox st
  end.
Proof.
  unfold stabilize, is_hit.
  destruct m as [r|]; [destruct (num_ltb _ _)|]; reflexivity.
Qed.

Lemma run_snoc (ms : list (option Match.t)) (m : option Match.t) (st : State) :
  run (ms ++ [m]) st = stabilize m (run ms st).
Proof. unfold run. rewrite fold_left_app. reflexivity. Qed.

Lemma run_hits_count (ms : list (option Match.t)) (st : State) :
  Forall hit ms ->
  0 <= stableCount st <= LOCK_FRAMES ->
  stableCount (run ms st) =
  Z.min LOCK_FRAMES (stableCount st + Z.of_nat (length ms)).
Proof.
  unfold LOCK_FRAMES.
  induction ms as [|m ms IH] using rev_ind; intros Hall Hst.
  - cbn. lia.
  - apply Forall_app in Hall as [Hms Hm].
    apply Forall_inv in Hm. unfold hit in Hm.
    rewrite run_snoc, stabilize_count, Hm, IH by assumption.
    rewrite length_app. cbn [length]. unfold LOCK_FRAMES. lia.
Qed.

Lemma run_misses_count (ms : list (option Match.t)) (st : State) :
  Forall miss ms ->
  0 <= stableCount st ->
  stableCount (run ms st) =
  Z.max 0 (stableCount st - Z.of_nat (length ms)).
Proof.
  induction ms as [|m ms IH] using rev_ind; intros Hall Hst.
  - cbn. lia.
  - apply Forall_app in Hall as [Hms Hm].
    apply Forall_inv in Hm. unfold miss in Hm.
    rewrite run_snoc, stabilize_count, Hm, IH by assumption.
    rewrite length_app. cbn [length]. lia.
Qed.

End Stabilizer.

(** C3: from [stableCount = 0], after N consecutive hits the counter is
    min(LOCK_FRAMES, N) and the lock is on exactly when
    N >= LOCK_FRAMES - 1 = 5: it turns on at the fifth hit and not before;
    the stored flag [detected] agrees with it after every tick. *)
Theorem lock_after_five_hits (ms : list (option Match.t)) (st : State) :
  stableCount st = 0 ->
  Forall hit ms ->
  LOCK_FRAMES - 1 = 5 /\
  stableCount (run ms st) = Z.min LOCK_FRAMES (Z.of_nat (length ms)) /\
  locked (run ms st) = (LOCK_FRAMES - 1 <=? Z.of_nat (length ms)) /\
  (locked (run ms st) = true <-> (5 <= length ms)%nat) /\
  (ms <> [] -> detected (run ms st) = locked (run ms st)).
Proof.
  intros H0 Hall.
  assert (Hc : stableCount (run ms st)
               = Z.min LOCK_FRAMES (Z.of_nat (length ms))).
  { rewrite run_hits_count by (assumption || (rewrite H0; unfold LOCK_FRAMES; lia)).
    rewrite H0. reflexivity. }
  assert (Hl : locked (run ms st) = (LOCK_FRAMES - 1 <=? Z.of_nat (length ms))).
  { unfold locked. rewrite Hc. unfold LOCK_FRAMES.
    destruct (Z.leb_spec (6 - 1) (Z.of_nat (length ms)));
      [apply Z.leb_le | apply Z.leb_gt]; lia. }
  repeat split.
  - exact Hc.
  - exact Hl.
  - rewrite Hl. unfold LOCK_FRAMES. intros H. apply Z.leb_le in H. lia.
  - rewrite Hl. unfold LOCK_FRAMES. intros H. apply Z.leb_le. lia.
  - intros Hne. destruct (exists_last Hne) as [ms' [m ->]].
    rewrite run_snoc. apply stabilize_detected.
Qed.

(** C4: from the fully locked counter [stableCount = LOCK_FRAMES = 6],
    consecutive misses take the counter 6 -> 5 -> 4: the lock is still on
    after the first miss and off after the second, and stays off under
    further misses. *)
Theorem unlock_at_second_miss (ms : list (option Match.t)) (st : State) :
  stableCount st = LOCK_FRAMES ->
  Forall miss ms ->
  stableCount (run ms st) = Z.max 0 (6 - Z.of_nat (length ms)) /\
  locked (run ms st) = (length ms <? 2)%nat /\
  (ms <> [] -> detected (run ms st) = (length ms <? 2)%nat).
Proof.
  intros H6 Hall.
  assert (Hc : stableCount (run ms st) = Z.max 0 (6 - Z.of_nat (length ms))).
  { rewrite run_misses_count by (assumption || (rewrite H6; unfold LOCK_FRAMES; lia)).
    rewrite H6. reflexivity. }
  assert (Hl : locked (run ms st) = (length ms <? 2)%nat).
  { unfold locked. rewrite Hc. unfold LOCK_FRAMES.
    destruct (Nat.ltb_spec (length ms) 2);
      [apply Z.leb_le | apply Z.leb_gt]; lia. }
  repeat split; try assumption.
  intros Hne. destruct (exists_last Hne) as [ms' [m Hm]].
  rewrite <- Hl. rewrite Hm, run_snoc. apply stabilize_detected.
Qed.

(** C5: a counter in [0, LOCK_FRAMES] stays there after every tick of every
    sequence of match results; one tick adds one up to LOCK_FRAMES on a hit
    and takes one off down to 0 on a miss. *)
Theorem stableCount_in_range (st : State) :
  0 <= stableCount st <= LOCK_FRAMES ->
  (forall m, stableCount (stabilize m st) =
             if is_hit m then Z.min LOCK_FRAMES (stableCount st + 1)
             else Z.max 0 (stableCount st - 1)) /\
  (forall ms, 0 <= stableCount (run ms st) <= LOCK_FRAMES).
Proof.
  intros Hst. split.
  - intros m. apply stabilize_count.
  - induction ms as [|m ms IH] using rev_ind.
    + exact Hst.
    + rewrite run_snoc, stabilize_count.
      destruct (is_hit m); unfold LOCK_FRAMES in *; lia.
Qed.

(** C9: a miss (no result, or a score not below the threshold 2600) leaves
    [lastBox] as it was and only takes one off the counter; a hit stores
    the box of the current match; so [lastBox] changes only on a hit. *)
Theorem lastBox_kept_on_miss (m : option Match.t) (st : State) :
  MSE_THRESHOLD = Fin (inject_Z 2600) /\
  (miss m ->
   lastBox (stabilize m st) = lastBox st /\
   stableCount (stabilize m st) = Z.max 0 (stableCount st - 1)) /\
  (forall r, m = Some r -> hit m ->
             lastBox (stabilize m st) = Match.box r) /\
  (lastBox (stabilize m st) <> lastBox st -> hit m).
Proof.
  split; [reflexivity|].
  rewrite stabilize_lastBox, stabilize_count. unfold hit, miss.
  destruct m as [r|].
  - destruct (is_hit (Some r)) eqn:E.
    + split; [discriminate|]. split; [|reflexivity].
      intros r' Hr' _. congruence.
    + split; [intros _; split; reflexivity|].
      split; [discriminate|]. intros H. contradiction H. reflexivity.
  - cbn [is_hit]. split; [intros _; split; reflexivity|].
    split; [discriminate|]. intros H. contradiction H. reflexivity.
Qed.

(** ** TemplateMatcher *)

(** *** Loop indices *)

Lemma for_from_ge (fuel : nat) (s limit step i : Z) :
  0 < step -> In i (for_from fuel s limit step) -> s <= i <= limit.
Proof.
  intros Hstep. revert s.
  induction fuel as [|fuel IH]; intros s Hin; cbn in Hin.
  - contradiction.
  - destruct (Z.leb_spec s limit) as [Hle|Hgt]; [|contradiction].
    destruct Hin as [<-|Hin]; [lia|].
    apply IH in Hin. lia.
Qed.

Lemma for_from_In (fuel : nat) (s limit step i : Z) :
  0 < step -> limit - s < Z.of_nat fuel ->
  In i (for_from fuel s limit step) <-> s <= i <= limit /\ (step | i - s).
Proof.
  intros Hstep. revert s.
  induction fuel as [|fuel IH]; intros s Hfuel; cbn [for_from].
  - split; [contradiction | lia].
  - destruct (Z.leb_spec s limit) as [Hle|Hgt]; [|split; [contradiction | lia]].
    cbn [In]. rewrite IH by lia. split.
    + intros [<-|[Hr Hd]].
      * split; [lia|]. rewrite Z.sub_diag. apply Z.divide_0_r.
      * split; [lia|]. replace (i - s) with (i - (s + step) + step) by lia.
        apply Z.divide_add_r; [assumption | apply Z.divide_refl].
    + intros [Hr Hd].
      destruct (Z.eq_dec s i) as [->|Hne]; [left; reflexivity | right].
      assert (step <= i - s) by (apply Z.divide_pos_le; [lia | assumption]).
      split; [lia|]. replace (i - (s + step)) with (i - s - step) by lia.
      apply Z.divide_sub_r; [assumption | apply Z.divide_refl].
Qed.

Lemma for_upto_In (limit step i : Z) :
  0 < step ->
  In i (for_upto limit step) <-> 0 <= i <= limit /\ (step | i).
Proof.
  intros Hstep. unfold for_upto.
  rewrite for_from_In by lia. rewrite Z.sub_0_r. reflexivity.
Qed.

Lemma for_upto_nil (limit step : Z) : limit < 0 -> for_upto limit step = [].
Proof.
  intros Hlt. unfold for_upto.
  replace (Z.to_nat (limit + 1)) with O by lia. reflexivity.
Qed.

Lemma for_upto_length (limit step : Z) :
  0 <= limit -> (1 <= length (for_upto limit step))%nat.
Proof.
  intros Hle. unfold for_upto.
  destruct (Z.to_nat (limit + 1)) as [|n] eqn:E; [lia|].
  cbn [for_from]. destruct (Z.leb_spec 0 limit); [cbn; lia | lia].
Qed.

Lemma for_from_sorted (fuel : nat) (s limit step : Z) :
  0 < step -> StronglySorted Z.lt (for_from fuel s limit step).
Proof.
  intros Hstep. revert s.
  induction fuel as [|fuel IH]; intros s; cbn [for_from].
  - constructor.
  - destruct (s <=? limit); constructor.
    + apply IH.
    + apply Forall_forall. intros i Hi.
      apply for_from_ge in Hi; lia.
Qed.

(** *** Order of the scan *)

Lemma sorted_app {A : Type} (R : A -> A -> Prop) (l1 l2 : list A) :
  StronglySorted R l1 -> StronglySorted R l2 ->
  (forall a b, In a l1 -> In b l2 -> R a b) ->
  StronglySorted R (l1 ++ l2).
Proof.
  intros H1 H2 H12. induction H1 as [|a l1 Hs IH Hall]; cbn.
  - exact H2.
  - constructor.
    + apply IH. intros a' b Ha Hb. apply H12; [right|]; assumption.
    + apply Forall_app. split; [assumption|].
      apply Forall_forall. intros b Hb. apply H12; [left; reflexivity | assumption].
Qed.

Lemma sorted_split {A : Type} (R : A -> A -> Prop) (l1 l2 : list A) (a : A) :
  StronglySorted R (l1 ++ a :: l2) -> Forall (R a) l2.
Proof.
  induction l1 as [|b l1 IH]; cbn; intros H.
  - apply StronglySorted_inv in H. tauto.
  - apply StronglySorted_inv in H. tauto.
Qed.

Lemma scan_order_In (xs ys : list Z) (p : Z * Z) :
  In p (scan_order xs ys) <-> In (fst p) xs /\ In (snd p) ys.
Proof.
  unfold scan_order. rewrite in_flat_map. split.
  - intros [y [Hy Hp]]. apply in_map_iff in Hp as [x [<- Hx]]. tauto.
  - intros [Hx Hy]. exists (snd p). split; [assumption|].
    apply in_map_iff. exists (fst p). destruct p; tauto.
Qed.

Lemma scan_order_sorted (xs ys : list Z) :
  StronglySorted Z.lt xs -> StronglySorted Z.lt ys ->
  StronglySorted scan_before (scan_order xs ys).
Proof.
  intros Hxs Hys. unfold scan_order.
  induction Hys as [|y ys Hs IH Hall]; cbn [flat_map].
  - constructor.
  - apply sorted_app.
    + clear -Hxs. induction Hxs as [|x xs Hs IH Hall]; cbn [map]; constructor.
      * exact IH.
      * apply Forall_forall. intros q Hq.
        apply in_map_iff in Hq as [x' [<- Hx']].
        rewrite Forall_forall in Hall. right. cbn. split; [reflexivity | auto].
    + exact IH.
    + intros p q Hp Hq.
      apply in_map_iff in Hp as [x [<- Hx]].
      apply (scan_order_In xs ys) in Hq as [_ Hq].
      rewrite Forall_forall in Hall. left. cbn. auto.
Qed.

Lemma fold_scan_order {B : Type} (f : B -> Z -> Z -> B) (xs ys : list Z) (b : B) :
  fold_left (fun acc y => fold_left (fun acc x => f acc x y) xs acc) ys b =
  fold_left (fun acc p => f acc (fst p) (snd p)) (scan_order xs ys) b.
Proof.
  unfold scan_order. revert b.
  induction ys as [|y ys IH]; intros b; cbn [flat_map fold_left].
  - reflexivity.
  - rewrite fold_left_app, IH. f_equal.
    clear. revert b. induction xs as [|x xs IH]; intros b; cbn; [reflexivity | apply IH].
Qed.

(** *** Order on scores *)

Lemma Qltb_lt (p q : Q) : Qltb p q = true <-> (p < q)%Q.
Proof. unfold Qltb, Qlt. apply Z.ltb_lt. Qed.

Lemma Qltb_ge (p q : Q) : Qltb p q = false <-> (q <= p)%Q.
Proof. unfold Qltb, Qle. apply Z.ltb_ge. Qed.

Lemma num_ltb_irrefl (a : number) : num_ltb a a = false.
Proof.
  destruct a as [q| |]; cbn; try reflexivity.
  apply Qltb_ge. apply Qle_refl.
Qed.

Lemma num_ltb_trans (a b c : number) :
  num_ltb a b = true -> num_ltb b c = true -> num_ltb a c = true.
Proof.
  destruct a as [p| |], b as [q| |], c as [r| |]; cbn; try congruence.
  rewrite !Qltb_lt. apply Qlt_trans.
Qed.

Lemma num_ltb_le_trans (p q r : Q) :
  num_ltb (Fin p) (Fin q) = true -> num_ltb (Fin r) (Fin q) = false ->
  num_ltb (Fin p) (Fin r) = true.
Proof.
  cbn. rewrite !Qltb_lt, Qltb_ge. apply Qlt_le_trans.
Qed.

(** *** Sums over a window *)

Section Sums.

Variable d : Z -> Z -> Z.

Lemma fold_row (ty : Z) (txs : list Z) (sum cnt : Z) :
  fold_left (fun '(sum, cnt) tx => (sum + d ty tx, cnt + 1)) txs (sum, cnt) =
  (sum + Zsum (map (d ty) txs), cnt + Z.of_nat (length txs)).
Proof.
  revert sum cnt. induction txs as [|tx txs IH]; intros sum cnt.
  - cbn. f_equal; lia.
  - cbn [fold_left map length Zsum fold_right]. rewrite IH.
    fold (Zsum (map (d ty) txs)). f_equal; lia.
Qed.

Lemma fold_rows (tys txs : list Z) (sum cnt : Z) :
  fold_left
    (fun acc ty =>
       fold_left (fun '(sum, cnt) tx => (sum + d ty tx, cnt + 1)) txs acc)
    tys (sum, cnt) =
  (sum + Zsum (map (fun ty => Zsum (map (d ty) txs)) tys),
   cnt + Z.of_nat (length tys) * Z.of_nat (length txs)).
Proof.
  revert sum cnt. induction tys as [|ty tys IH]; intros sum cnt.
  - cbn. f_equal; lia.
  - cbn [fold_left map length Zsum fold_right]. rewrite fold_row, IH.
    fold (Zsum (map (fun ty => Zsum (map (d ty) txs)) tys)). f_equal; lia.
Qed.

End Sums.

Lemma Zsum_nonneg (l : list Z) : Forall (fun v => 0 <= v) l -> 0 <= Zsum l.
Proof.
  induction 1 as [|v l Hv Hl IH]; cbn; [lia|]. fold (Zsum l). lia.
Qed.


Section WindowFacts.

Variables (fData : list Z) (fw : Z) (tGray : list Z) (tw th : Z).
Hypotheses (Htw : 0 < tw) (Hth : 0 < th).

Let sums := window_sums fData fw tGray tw th.

Lemma window_sums_eq (x y : Z) :
  sums x y =
  (Zsum (map (fun ty => Zsum (map (abs_diff fData fw tGray tw x y ty)
                                  (for_upto (tw - 1) 2)))
             (for_upto (th - 1) 2)),
   Z.of_nat (length (for_upto (th - 1) 2))
   * Z.of_nat (length (for_upto (tw - 1) 2))).
Proof.
  unfold sums, window_sums.
  rewrite (fold_rows (abs_diff fData fw tGray tw x y)). reflexivity.
Qed.

Lemma window_sum_nonneg (x y : Z) : 0 <= fst (sums x y).
Proof.
  rewrite window_sums_eq. cbn [fst].
  apply Zsum_nonneg, Forall_forall. intros v Hv.
  apply in_map_iff in Hv as [ty [<- _]].
  apply Zsum_nonneg, Forall_forall. intros v Hv.
  apply in_map_iff in Hv as [tx [<- _]].
  unfold abs_diff. apply Z.abs_nonneg.
Qed.

Lemma window_cnt_pos (x y : Z) : 1 <= snd (sums x y).
Proof.
  rewrite window_sums_eq. cbn [snd].
  pose proof (for_upto_length (th - 1) 2 ltac:(lia)).
  pose proof (for_upto_length (tw - 1) 2 ltac:(lia)).
  nia.
Qed.

(** The score of a window is a finite, non-negative number. *)
Lemma mae_finite (x y : Z) :
  exists q, mae fData fw tGray tw th x y = Fin q /\ (0 <= q)%Q.
Proof.
  unfold mae. pose proof (window_sum_nonneg x y) as Hs.
  pose proof (window_cnt_pos x y) as Hc. unfold sums in *.
  destruct (window_sums fData fw tGray tw th x y) as [sum cnt].
  cbn [fst snd] in *. unfold num_div.
  destruct (Z.eqb_spec cnt 0) as [->|_]; [lia|].
  eexists. split; [reflexivity|].
  rewrite Qred_correct. unfold Qle. cbn. lia.
Qed.


End WindowFacts.

(** With the 64x64 template of [setupTemplate] every window has 1024
    samples, a power of two. *)
Lemma window_cnt_64 (fData : list Z) (fw : Z) (tGray : list Z) (x y : Z) :
  snd (window_sums fData fw tGray 64 64 x y) = 1024.
Proof. rewrite window_sums_eq. reflexivity. Qed.

(** *** The scan keeps the first minimum *)

Section FirstMinimum.

Variables (fData : list Z) (fw : Z) (tGray : list Z) (tw th : Z).
Hypotheses (Htw : 0 < tw) (Hth : 0 < th).

Let cost (p : Z * Z) : number := mae fData fw tGray tw th (fst p) (snd p).

Let found (p : Z * Z) : Match.t :=
  {| Match.x := fst p; Match.y := snd p; Match.score := cost p;
     Match.box := Some {| Box.x := fst p; Box.y := snd p;
                          Box.w := tw; Box.h := th |} |}.

Let visit (best : Match.t) (p : Z * Z) : Match.t :=
  consider fData fw tGray tw th best (fst p) (snd p).

Lemma visit_eq (best : Match.t) (p : Z * Z) :
  visit best p = if num_ltb (cost p) (Match.score best) then found p else best.
Proof. reflexivity. Qed.

Lemma cost_finite (p : Z * Z) : exists q, cost p = Fin q /\ (0 <= q)%Q.
Proof. apply mae_finite; assumption. Qed.

(** After any list of offsets the best record is the initial one (empty
    list) or the first offset of minimal score. *)
Lemma fold_visit (l : list (Z * Z)) :
  (l = [] /\ fold_left visit l initial_best = initial_best) \/
  (exists l1 p l2,
      l = l1 ++ p :: l2 /\
      fold_left visit l initial_best = found p /\
      (forall q, In q l1 -> num_ltb (cost p) (cost q) = true) /\
      (forall q, In q l2 -> num_ltb (cost q) (cost p) = false)).
Proof.
  induction l as [|a l IH] using rev_ind.
  - left. split; reflexivity.
  - right. rewrite fold_left_app. cbn [fold_left]. rewrite visit_eq.
    destruct (cost_finite a) as [qa [Ha _]].
    destruct IH as [[-> ->] | [l1 [p [l2 [-> [-> [Hbefore Hafter]]]]]]].
    + exists [], a, []. rewrite Ha. cbn. repeat split; contradiction.
    + cbn [found Match.score].
      destruct (cost_finite p) as [qp [Hp _]].
      destruct (num_ltb (cost a) (cost p)) eqn:Hlt.
      * exists (l1 ++ p :: l2), a, []. repeat split; try contradiction.
        intros q Hq. destruct (cost_finite q) as [qq [Hqq _]].
        apply in_app_or in Hq as [Hq | [<- | Hq]].
        -- apply num_ltb_trans with (b := cost p); auto.
        -- exact Hlt.
        -- specialize (Hafter q Hq). rewrite Ha, Hp, Hqq in *.
           eapply num_ltb_le_trans; eassumption.
      * exists l1, p, (l2 ++ [a]). rewrite <- app_assoc. repeat split; try assumption.
        intros q Hq. apply in_app_or in Hq as [Hq | [<- | []]]; auto.
Qed.

Lemma slide_fold (fh step : Z) :
  slide fData fw tGray tw th fh step =
  fold_left visit
            (scan_order (for_upto (fw - tw) step) (for_upto (fh - th) step))
            initial_best.
Proof.
  unfold slide.
  apply (fold_scan_order (fun best x y => consider fData fw tGray tw th best x y)).
Qed.

End FirstMinimum.

(** *** Reading canvases *)

Lemma read_ok (c : Canvas) (i : Z) :
  canvas_ok c -> 0 <= i < 4 * width c * height c ->
  exists v, read (pixels c) i = Some v /\ 0 <= v <= 255.
Proof.
  intros [Hlen Hbytes] Hi. unfold read.
  destruct (Z.ltb_spec i 0) as [|_]; [lia|].
  destruct (nth_error (pixels c) (Z.to_nat i)) as [v|] eqn:E.
  - exists v. split; [reflexivity|].
    rewrite Forall_forall in Hbytes. apply Hbytes.
    eapply nth_error_In. eassumption.
  - apply nth_error_None in E. lia.
Qed.

Lemma clamp8_byte (v : Z) : 0 <= v <= 255 -> clamp8 v = v.
Proof. unfold clamp8. lia. Qed.

Lemma template_gray_length (tData : list Z) (tw th : Z) :
  length (template_gray tData tw th) = Z.to_nat (tw * th).
Proof. unfold template_gray. rewrite length_map, length_seq. reflexivity. Qed.

Lemma template_gray_nth (tData : list Z) (tw th i : Z) :
  0 <= i < tw * th ->
  nth (Z.to_nat i) (template_gray tData tw th) 0 =
  clamp8 (luminance (read tData (i * 4 + 0)) (read tData (i * 4 + 1))
                    (read tData (i * 4 + 2))).
Proof.
  intros Hi. unfold template_gray.
  set (f := fun n : nat => _).
  rewrite (nth_indep _ 0 (f O)) by (rewrite length_map, length_seq; lia).
  rewrite map_nth, seq_nth by lia. unfold f. cbn [Nat.add].
  rewrite Z2Nat.id by lia. reflexivity.
Qed.

(** Every cell of the grayscale template is the conversion of its pixel. *)
Lemma template_gray_pixel (tmpl : Canvas) (i : Z) :
  canvas_ok tmpl -> 0 <= i < width tmpl * height tmpl ->
  exists r g b,
    read (pixels tmpl) (i * 4 + 0) = Some r /\
    read (pixels tmpl) (i * 4 + 1) = Some g /\
    read (pixels tmpl) (i * 4 + 2) = Some b /\
    nth (Z.to_nat i) (template_gray (pixels tmpl) (width tmpl) (height tmpl)) 0
    = gray r g b.
Proof.
  intros Hok Hi.
  destruct (read_ok tmpl (i * 4 + 0) Hok ltac:(lia)) as [r [Hr Br]].
  destruct (read_ok tmpl (i * 4 + 1) Hok ltac:(lia)) as [g [Hg Bg]].
  destruct (read_ok tmpl (i * 4 + 2) Hok ltac:(lia)) as [b [Hb Bb]].
  exists r, g, b. repeat split; try assumption.
  rewrite template_gray_nth, Hr, Hg, Hb by assumption.
  apply clamp8_byte. apply (gray_bounds r g b Br Bg Bb).
Qed.

Lemma findTemplate_eq (frame tmpl : Canvas) (step : Z) :
  width frame <> 0 -> height frame <> 0 ->
  width tmpl <> 0 -> height tmpl <> 0 ->
  findTemplate frame tmpl step =
  Normal (Some (slide (pixels frame) (width frame)
                      (template_gray (pixels tmpl) (width tmpl) (height tmpl))
                      (width tmpl) (height tmpl) (height frame) step)).
Proof.
  intros Hfw Hfh Htw Hth. unfold findTemplate, getImageData.
  apply Z.eqb_neq in Hfw, Hfh, Htw, Hth.
  rewrite Hfw, Hfh, Htw, Hth. reflexivity.
Qed.

Lemma findTemplate_Normal (frame tmpl : Canvas) (step : Z)
      (r : option Match.t) :
  findTemplate frame tmpl step = Normal r ->
  width frame <> 0 /\ height frame <> 0 /\
  width tmpl <> 0 /\ height tmpl <> 0.
Proof.
  unfold findTemplate, getImageData.
  destruct (Z.eqb_spec (width frame) 0); [discriminate|].
  destruct (Z.eqb_spec (height frame) 0); [discriminate|].
  destruct (Z.eqb_spec (width tmpl) 0); [discriminate|].
  destruct (Z.eqb_spec (height tmpl) 0); [discriminate|].
  tauto.
Qed.

Lemma scan_order_scanned (frame tmpl : Canvas) (step : Z) (p : Z * Z) :
  0 < step ->
  In p (scan_order (for_upto (width frame - width tmpl) step)
                   (for_upto (height frame - height tmpl) step)) <->
  scanned frame tmpl step (fst p) (snd p).
Proof.
  intros Hstep. rewrite scan_order_In, !for_upto_In by assumption.
  unfold scanned. tauto.
Qed.

Lemma scan_before_asym (p q : Z * Z) : scan_before p q -> scan_before q p -> False.
Proof. unfold scan_before. lia. Qed.

Lemma num_ltb_asym (a b : number) : num_ltb a b = true -> num_ltb b a = false.
Proof.
  intros Hab. destruct (num_ltb b a) eqn:Hba; [|reflexivity].
  pose proof (num_ltb_trans _ _ _ Hab Hba) as H.
  rewrite num_ltb_irrefl in H. discriminate.
Qed.

(** What the scan returns over a frame that holds at least one window. *)
Lemma slide_first_minimum (frame tmpl : Canvas) (step : Z) :
  0 < step ->
  0 < width tmpl <= width frame -> 0 < height tmpl <= height frame ->
  exists p,
    scanned frame tmpl step (fst p) (snd p) /\
    slide (pixels frame) (width frame)
          (template_gray (pixels tmpl) (width tmpl) (height tmpl))
          (width tmpl) (height tmpl) (height frame) step =
    {| Match.x := fst p; Match.y := snd p;
       Match.score := score_at frame tmpl (fst p) (snd p);
       Match.box := Some {| Box.x := fst p; Box.y := snd p;
                            Box.w := width tmpl; Box.h := height tmpl |} |} /\
    (forall q, scanned frame tmpl step (fst q) (snd q) ->
               num_ltb (score_at frame tmpl (fst q) (snd q))
                       (score_at frame tmpl (fst p) (snd p)) = false) /\
    (forall q, scanned frame tmpl step (fst q) (snd q) -> scan_before q p ->
               num_ltb (score_at frame tmpl (fst p) (snd p))
                       (score_at frame tmpl (fst q) (snd q)) = true).
Proof.
  intros Hstep Hw Hh.
  rewrite slide_fold.
  set (l := scan_order _ _).
  assert (Hsorted : StronglySorted scan_before l).
  { apply scan_order_sorted; apply for_from_sorted; assumption. }
  assert (Hin : forall q, In q l <-> scanned frame tmpl step (fst q) (snd q)).
  { intros q. apply scan_order_scanned. assumption. }
  destruct (fold_visit (pixels frame) (width frame)
              (template_gray (pixels tmpl) (width tmpl) (height tmpl))
              (width tmpl) (height tmpl) ltac:(lia) ltac:(lia) l)
    as [[Hnil _] | [l1 [p [l2 [Hl [Hres [Hbefore Hafter]]]]]]].
  - exfalso. assert (H0 : In (0, 0) l).
    { apply Hin. unfold scanned. cbn.
      repeat split; try lia; apply Z.divide_0_r. }
    rewrite Hnil in H0. contradiction.
  - exists p. rewrite Hres. fold (score_at frame tmpl (fst p) (snd p)).
    split; [apply Hin; rewrite Hl; apply in_elt|].
    split; [reflexivity|].
    rewrite Hl in Hsorted. apply sorted_split in Hsorted.
    rewrite Forall_forall in Hsorted.
    split; intros q Hq; apply Hin in Hq; rewrite Hl in Hq;
      apply in_app_or in Hq as [Hq | [<- | Hq]].
    + apply num_ltb_asym. apply (Hbefore q Hq).
    + apply num_ltb_irrefl.
    + apply (Hafter q Hq).
    + intros _. apply (Hbefore q Hq).
    + intros Hb. exfalso. unfold scan_before in Hb. lia.
    + intros Hb. exfalso. apply (scan_before_asym _ _ Hb). auto.
Qed.

(** *** The score is the sub-sampled mean absolute error *)

Lemma for_from_sampled (m fuel : nat) (s limit : Z) :
  (m <= fuel)%nat ->
  limit < s + 2 * Z.of_nat m ->
  (m = O \/ s + 2 * (Z.of_nat m - 1) <= limit) ->
  for_from fuel s limit 2 = map (fun k => s + 2 * Z.of_nat k) (seq 0 m).
Proof.
  revert fuel s. induction m as [|m IH]; intros fuel s Hfuel Hhi Hlo.
  - destruct fuel as [|fuel]; [reflexivity|]. cbn [for_from seq map].
    destruct (Z.leb_spec s limit); [lia | reflexivity].
  - destruct fuel as [|fuel]; [lia|]. cbn [for_from].
    destruct (Z.leb_spec s limit) as [_|Hgt]; [|lia].
    cbn [seq map]. rewrite <- seq_shift, map_map.
    f_equal; [lia|].
    rewrite (IH fuel (s + 2)) by lia.
    apply map_ext. intros k. lia.
Qed.

Lemma for_upto_sampled (n : Z) : for_upto (n - 1) 2 = sampled n.
Proof.
  unfold for_upto, sampled.
  destruct (Z.le_gt_cases n 0) as [Hn|Hn].
  - replace (Z.to_nat (n - 1 + 1)) with O by lia.
    replace (Z.to_nat ((n + 1) / 2)) with O; [reflexivity|].
    assert ((n + 1) / 2 < 1) by (apply Z.div_lt_upper_bound; lia). lia.
  - pose proof (Z.div_mod (n + 1) 2 ltac:(lia)) as Hdm.
    pose proof (Z.mod_pos_bound (n + 1) 2 ltac:(lia)) as Hmod.
    rewrite (for_from_sampled (Z.to_nat ((n + 1) / 2))) by lia.
    apply map_ext. intros k. lia.
Qed.

Lemma luminance_bytes (c : Canvas) (k : Z) :
  canvas_ok c -> 0 <= k -> k + 3 < 4 * width c * height c ->
  luminance (read (pixels c) (k + 0)) (read (pixels c) (k + 1))
            (read (pixels c) (k + 2))
  = gray (nth (Z.to_nat k) (pixels c) 0) (nth (Z.to_nat k + 1) (pixels c) 0)
         (nth (Z.to_nat k + 2) (pixels c) 0).
Proof.
  intros Hok Hk0 Hk3.
  assert (Hread : forall j, 0 <= j <= 2 ->
            read (pixels c) (k + j)
            = Some (nth (Z.to_nat k + Z.to_nat j) (pixels c) 0)).
  { intros j Hj.
    destruct (read_ok c (k + j) Hok ltac:(lia)) as [v [Hv _]].
    rewrite Hv. f_equal. unfold read in Hv.
    destruct (Z.ltb_spec (k + j) 0); [lia|].
    rewrite Z2Nat.inj_add in Hv by lia.
    symmetry. apply nth_error_nth. exact Hv. }
  rewrite (Hread 0), (Hread 1), (Hread 2) by lia.
  change (Z.to_nat 0) with 0%nat. change (Z.to_nat 1) with 1%nat.
  change (Z.to_nat 2) with 2%nat. rewrite Nat.add_0_r. reflexivity.
Qed.

Lemma abs_diff_luminance (frame tmpl : Canvas) (x y ty tx : Z) :
  canvas_ok frame -> canvas_ok tmpl ->
  0 <= x + tx < width frame -> 0 <= y + ty < height frame ->
  0 <= tx < width tmpl -> 0 <= ty < height tmpl ->
  abs_diff (pixels frame) (width frame)
           (template_gray (pixels tmpl) (width tmpl) (height tmpl))
           (width tmpl) x y ty tx
  = Z.abs (pixel_luminance frame (x + tx) (y + ty) - pixel_luminance tmpl tx ty).
Proof.
  intros Hf Ht Hx Hy Htx Hty. unfold abs_diff, pixel_luminance. cbv zeta.
  rewrite (luminance_bytes frame) by (assumption || nia).
  rewrite template_gray_nth by nia.
  rewrite (luminance_bytes tmpl) by (assumption || nia).
  rewrite clamp8_byte; [reflexivity|].
  destruct Ht as [Hlen Hbytes]. rewrite Forall_forall in Hbytes.
  assert (Hin : forall n, (n < length (pixels tmpl))%nat ->
                          0 <= nth n (pixels tmpl) 0 <= 255)
    by (intros n Hn; apply Hbytes, nth_In, Hn).
  apply gray_bounds; apply Hin; nia.
Qed.

(** The score the code computes for a window inside a well-formed frame,
    against a well-formed template, is the sub-sampled mean absolute
    error. *)
Lemma score_at_sub_sampled (frame tmpl : Canvas) (x y : Z) :
  canvas_ok frame -> canvas_ok tmpl ->
  0 < width tmpl -> 0 < height tmpl ->
  0 <= x -> x + width tmpl <= width frame ->
  0 <= y -> y + height tmpl <= height frame ->
  score_at frame tmpl x y = Fin (Qred (sub_sampled_mae frame tmpl x y)).
Proof.
  intros Hf Ht Htw Hth Hx0 Hx1 Hy0 Hy1.
  unfold score_at, mae, sub_sampled_mae.
  rewrite window_sums_eq, !for_upto_sampled.
  assert (Hcell : forall ty tx,
             In ty (sampled (height tmpl)) -> In tx (sampled (width tmpl)) ->
             abs_diff (pixels frame) (width frame)
                      (template_gray (pixels tmpl) (width tmpl) (height tmpl))
                      (width tmpl) x y ty tx
             = Z.abs (pixel_luminance frame (x + tx) (y + ty)
                      - pixel_luminance tmpl tx ty)).
  { intros ty tx Hty Htx.
    rewrite <- for_upto_sampled in Hty, Htx.
    apply for_upto_In in Hty as [Hty _]; [|lia].
    apply for_upto_In in Htx as [Htx _]; [|lia].
    apply abs_diff_luminance; assumption || lia. }
  rewrite (map_ext_in _ _ _
             (fun ty Hty => f_equal Zsum (map_ext_in _ _ _ (fun tx => Hcell ty tx Hty)))).
  assert (Hlen : forall n, 0 < n -> (1 <= length (sampled n))%nat).
  { intros n Hn. rewrite <- for_upto_sampled. apply for_upto_length. lia. }
  pose proof (Hlen _ Htw). pose proof (Hlen _ Hth).
  unfold num_div.
  destruct (Z.eqb_spec (Z.of_nat (length (sampled (height tmpl)))
                        * Z.of_nat (length (sampled (width tmpl)))) 0);
    [nia | reflexivity].
Qed.

(** C6: over a well-formed frame at least as large as the well-formed
    template, [findTemplate] returns a scanned offset (x in 0..fw-tw, y in
    0..fh-th, both multiples of the stride) whose recorded score is the
    sub-sampled mean absolute error there, the mean over every second row
    and column of the template of the absolute luminance differences: no
    scanned offset has a lower one, and every scanned offset met earlier
    in the scan (rows outside, columns inside) has a strictly higher one,
    so among offsets of minimal score the first one met is returned. *)
Theorem findTemplate_first_minimum (frame tmpl : Canvas) (step : Z) :
  0 < step -> canvas_ok frame -> canvas_ok tmpl ->
  0 < width tmpl <= width frame -> 0 < height tmpl <= height frame ->
  exists m,
    findTemplate frame tmpl step = Normal (Some m) /\
    scanned frame tmpl step (Match.x m) (Match.y m) /\
    Match.score m
    = Fin (Qred (sub_sampled_mae frame tmpl (Match.x m) (Match.y m))) /\
    Match.box m = Some {| Box.x := Match.x m; Box.y := Match.y m;
                          Box.w := width tmpl; Box.h := height tmpl |} /\
    (forall x y, scanned frame tmpl step x y ->
                 score_at frame tmpl x y
                 = Fin (Qred (sub_sampled_mae frame tmpl x y)) /\
                 num_ltb (score_at frame tmpl x y) (Match.score m) = false /\
                 (sub_sampled_mae frame tmpl (Match.x m) (Match.y m)
                  <= sub_sampled_mae frame tmpl x y)%Q) /\
    (forall x y, scanned frame tmpl step x y ->
                 scan_before (x, y) (Match.x m, Match.y m) ->
                 num_ltb (Match.score m) (score_at frame tmpl x y) = true /\
                 (sub_sampled_mae frame tmpl (Match.x m) (Match.y m)
                  < sub_sampled_mae frame tmpl x y)%Q).
Proof.
  intros Hstep Hf Ht Hw Hh.
  destruct (slide_first_minimum frame tmpl step Hstep Hw Hh)
    as [p [Hp [Hres [Hmin Hfirst]]]].
  assert (Hspec : forall x y, scanned frame tmpl step x y ->
            score_at frame tmpl x y = Fin (Qred (sub_sampled_mae frame tmpl x y))).
  { intros x y [Hx [_ [Hy _]]]. apply score_at_sub_sampled; assumption || lia. }
  eexists. split.
  - rewrite findTemplate_eq by lia. rewrite Hres. reflexivity.
  - cbn [Match.x Match.y Match.score Match.box].
    split; [exact Hp|]. split; [apply Hspec; exact Hp|].
    split; [reflexivity|]. split.
    + intros x y Hxy. split; [apply Hspec; exact Hxy|].
      pose proof (Hmin (x, y) Hxy) as Hge. cbn [fst snd] in Hge.
      split; [exact Hge|].
      rewrite (Hspec x y Hxy), (Hspec _ _ Hp) in Hge. cbn [num_ltb] in Hge.
      apply Qltb_ge in Hge. rewrite !Qred_correct in Hge. exact Hge.
    + intros x y Hxy Hb.
      assert (Hb' : scan_before (x, y) p) by (destruct p; exact Hb).
      pose proof (Hfirst (x, y) Hxy Hb') as Hlt. cbn [fst snd] in Hlt.
      split; [exact Hlt|].
      rewrite (Hspec x y Hxy), (Hspec _ _ Hp) in Hlt. cbn [num_ltb] in Hlt.
      apply Qltb_lt in Hlt. rewrite !Qred_correct in Hlt. exact Hlt.
Qed.

(** C10: a result of [findTemplate] with a box has that box on the search
    grid and inside the frame, 0 <= x <= fw - tw and 0 <= y <= fh - th with
    x and y multiples of the stride, of the template's size, at the offset
    of the result, and its score is a finite number, at least 0. *)
Theorem findTemplate_box_in_frame (frame tmpl : Canvas) (step : Z)
        (m : Match.t) (b : Box.t) :
  0 < step -> 0 <= width tmpl -> 0 <= height tmpl ->
  findTemplate frame tmpl step = Normal (Some m) ->
  Match.box m = Some b ->
  0 <= Box.x b <= width frame - width tmpl /\ (step | Box.x b) /\
  0 <= Box.y b <= height frame - height tmpl /\ (step | Box.y b) /\
  Box.w b = width tmpl /\ Box.h b = height tmpl /\
  Box.x b = Match.x m /\ Box.y b = Match.y m /\
  exists q, Match.score m = Fin q /\ (0 <= q)%Q.
Proof.
  intros Hstep Htw Hth Hfind Hbox.
  pose proof (findTemplate_Normal _ _ _ _ Hfind) as [Hfw [Hfh [Htw0 Hth0]]].
  rewrite findTemplate_eq in Hfind by assumption.
  injection Hfind as Hm. rewrite slide_fold in Hm.
  destruct (fold_visit (pixels frame) (width frame)
              (template_gray (pixels tmpl) (width tmpl) (height tmpl))
              (width tmpl) (height tmpl) ltac:(lia) ltac:(lia)
              (scan_order (for_upto (width frame - width tmpl) step)
                          (for_upto (height frame - height tmpl) step)))
    as [[_ Hres] | [l1 [p [l2 [Hl [Hres _]]]]]];
    rewrite Hres in Hm; subst m.
  - discriminate.
  - cbn in Hbox. injection Hbox as <-. cbn [Box.x Box.y Box.w Box.h Match.x Match.y Match.score].
    assert (Hp : scanned frame tmpl step (fst p) (snd p)).
    { apply scan_order_scanned; [assumption|]. rewrite Hl. apply in_elt. }
    destruct Hp as [Hx [Hdx [Hy Hdy]]].
    repeat split; try assumption; try lia.
    apply mae_finite; lia.
Qed.


(** C1 (as the code has it): [findTemplate] does not test the sizes.  On a
    non-empty frame narrower or lower than the template its scan scores no
    window and it returns the record it started from, with score
    +Infinity and a null box: never a box, and a result the stabilizer
    counts as a miss because Infinity < 2600 is false. *)
Theorem findTemplate_small_frame (frame tmpl : Canvas) (step : Z) :
  0 < step ->
  width frame <> 0 -> height frame <> 0 ->
  width tmpl <> 0 -> height tmpl <> 0 ->
  width frame < width tmpl \/ height frame < height tmpl ->
  findTemplate frame tmpl step = Normal (Some initial_best) /\
  Match.score initial_best = PosInf /\
  Match.box initial_best = None /\
  is_hit (Some initial_best) = false /\
  (step = STEP ->
   forall st, lastBox (tick frame tmpl st) = lastBox st /\
              stableCount (tick frame tmpl st) = Z.max 0 (stableCount st - 1)).
Proof.
  intros Hstep Hfw Hfh Htw Hth Hsmall.
  assert (Hfind : findTemplate frame tmpl step = Normal (Some initial_best)).
  { rewrite findTemplate_eq by assumption. do 2 f_equal.
    unfold slide. rewrite fold_scan_order.
    replace (scan_order _ _) with (@nil (Z * Z)); [reflexivity|].
    symmetry. destruct Hsmall as [Hw|Hh].
    - rewrite (for_upto_nil (width frame - width tmpl)) by lia.
      unfold scan_order.
      induction (for_upto (height frame - height tmpl) step); cbn; auto.
    - rewrite (for_upto_nil (height frame - height tmpl)) by lia. reflexivity. }
  split; [exact Hfind|]. do 3 (split; [reflexivity|]).
  intros -> st. unfold tick. rewrite Hfind. split; reflexivity.
Qed.

(** C1, the claim as stated fails: on a 1x1 frame and a 2x2 template
    [findTemplate] hands the record with score +Infinity to its caller, not
    a null "no match". *)
Lemma findTemplate_small_frame_not_null :
  width frame_1x1 < width tmpl_2x2 /\
  findTemplate frame_1x1 tmpl_2x2 STEP <> Normal None /\
  findTemplate frame_1x1 tmpl_2x2 STEP =
  Normal (Some {| Match.x := 0; Match.y := 0; Match.score := PosInf;
                  Match.box := None |}).
Proof.
  assert (H : findTemplate frame_1x1 tmpl_2x2 STEP = Normal (Some initial_best))
    by (vm_compute; reflexivity).
  split; [reflexivity|]. split; [rewrite H; discriminate | exact H].
Qed.

(** C8 (as the code has it): on bytes the conversion is the integer part
    of the double (R * 0.299 + G * 0.587) + B * 0.114, it lies in [0,255],
    and it is the floor of the exact sum or one below it; each cell of the
    grayscale template is the conversion of its own pixel, and each sample
    of a window is compared through the conversion of its frame pixel. *)
Theorem gray_double_floor :
  (forall r g b : Z,
      0 <= r <= 255 -> 0 <= g <= 255 -> 0 <= b <= 255 ->
      gray r g b = Num.to_int32 (Num.of_Z r * 0.299 + Num.of_Z g * 0.587
                                 + Num.of_Z b * 0.114)%float /\
      0 <= gray r g b <= 255 /\
      gray_real_floor r g b - 1 <= gray r g b <= gray_real_floor r g b) /\
  (forall tmpl : Canvas,
      canvas_ok tmpl ->
      length (template_gray (pixels tmpl) (width tmpl) (height tmpl))
      = Z.to_nat (width tmpl * height tmpl) /\
      forall i, 0 <= i < width tmpl * height tmpl ->
                exists r g b,
                  read (pixels tmpl) (i * 4 + 0) = Some r /\
                  read (pixels tmpl) (i * 4 + 1) = Some g /\
                  read (pixels tmpl) (i * 4 + 2) = Some b /\
                  nth (Z.to_nat i)
                      (template_gray (pixels tmpl) (width tmpl) (height tmpl)) 0
                  = gray r g b) /\
  (forall (frame : Canvas) (tGray : list Z) (tw x y ty tx : Z),
      canvas_ok frame ->
      0 <= x + tx < width frame -> 0 <= y + ty < height frame ->
      exists r g b,
        let fi := ((y + ty) * width frame + (x + tx)) * 4 in
        read (pixels frame) (fi + 0) = Some r /\
        read (pixels frame) (fi + 1) = Some g /\
        read (pixels frame) (fi + 2) = Some b /\
        abs_diff (pixels frame) (width frame) tGray tw x y ty tx
        = Z.abs (gray r g b - nth (Z.to_nat (ty * tw + tx)) tGray 0)).
Proof.
  split; [|split].
  - intros r g b Hr Hg Hb. split; [reflexivity|].
    apply gray_bounds; assumption.
  - intros tmpl Hok. split; [apply template_gray_length|].
    intros i Hi. apply template_gray_pixel; assumption.
  - intros frame tGray tw x y ty tx Hok Hx Hy. cbv zeta.
    set (fi := ((y + ty) * width frame + (x + tx)) * 4).
    assert (Hfi : 0 <= fi /\ fi + 3 < 4 * width frame * height frame)
      by (unfold fi; nia).
    destruct (read_ok frame (fi + 0) Hok ltac:(lia)) as [r [Hr _]].
    destruct (read_ok frame (fi + 1) Hok ltac:(lia)) as [g [Hg _]].
    destruct (read_ok frame (fi + 2) Hok ltac:(lia)) as [b [Hb _]].
    exists r, g, b. repeat split; try assumption.
    unfold abs_diff. cbv zeta. fold fi. rewrite Hr, Hg, Hb. reflexivity.
Qed.

(** C8, the claim as stated fails: the gray pixel (1,1,1) has exact
    weighted sum 1, but its three products add up to a double just below 1
    and the conversion gives 0. *)
Lemma gray_below_real_floor :
  gray 1 1 1 = 0 /\ gray_real_floor 1 1 1 = 1 /\
  gray 1 1 1 <> gray_real_floor 1 1 1.
Proof.
  assert (H : gray 1 1 1 = 0) by (vm_compute; reflexivity).
  split; [exact H|]. split; [reflexivity|]. rewrite H. discriminate.
Qed.

(** * The theorems at concrete inputs *)

Lemma canvas_ok_tmpl_2x2 : canvas_ok tmpl_2x2.
Proof. split; [reflexivity | repeat constructor; lia]. Defined.


Lemma scanned_frame_6x2 : scanned frame_6x2 tmpl_2x2 STEP 4 0.
Proof.
  unfold scanned. cbn [width height tmpl_2x2 frame_6x2]. unfold STEP.
  repeat split; try lia; [exists 1 | exists 0]; reflexivity.
Defined.

Lemma findTemplate_small_frame_witness :
  0 < STEP /\
  width frame_1x1 <> 0 /\ height frame_1x1 <> 0 /\
  width tmpl_2x2 <> 0 /\ height tmpl_2x2 <> 0 /\
  (width frame_1x1 < width tmpl_2x2 \/ height frame_1x1 < height tmpl_2x2) /\
  findTemplate frame_1x1 tmpl_2x2 STEP = Normal (Some initial_best).
Proof.
  assert (H1 : 0 < STEP) by reflexivity.
  assert (H2 : width frame_1x1 <> 0) by discriminate.
  assert (H3 : height frame_1x1 <> 0) by discriminate.
  assert (H4 : width tmpl_2x2 <> 0) by discriminate.
  assert (H5 : height tmpl_2x2 <> 0) by discriminate.
  assert (H6 : width frame_1x1 < width tmpl_2x2 \/ height frame_1x1 < height tmpl_2x2)
    by (left; reflexivity).
  repeat (split; [assumption|]).
  exact (proj1 (findTemplate_small_frame frame_1x1 tmpl_2x2 STEP H1 H2 H3 H4 H5 H6)).
Defined.

Lemma lock_after_five_hits_witness :
  stableCount initial_state = 0 /\
  Forall hit (repeat (Some match_at_4_0) 5) /\
  stableCount (run (repeat (Some match_at_4_0) 5) initial_state) = 5 /\
  locked (run (repeat (Some match_at_4_0) 5) initial_state) = true.
Proof.
  assert (H1 : stableCount initial_state = 0) by reflexivity.
  assert (H2 : Forall hit (repeat (Some match_at_4_0) 5))
    by (repeat constructor).
  split; [exact H1|]. split; [exact H2|].
  destruct (lock_after_five_hits _ _ H1 H2) as [_ [Hc [Hl _]]].
  split; [exact Hc | exact Hl].
Defined.

Lemma unlock_at_second_miss_witness :
  stableCount full_state = LOCK_FRAMES /\
  Forall miss [None; Some poor_match] /\
  stableCount (run [None; Some poor_match] full_state) = 4 /\
  locked (run [None; Some poor_match] full_state) = false.
Proof.
  assert (H1 : stableCount full_state = LOCK_FRAMES) by reflexivity.
  assert (H2 : Forall miss [None; Some poor_match]) by (repeat constructor).
  split; [exact H1|]. split; [exact H2|].
  destruct (unlock_at_second_miss _ _ H1 H2) as [Hc [Hl _]].
  split; [exact Hc | exact Hl].
Defined.

Lemma stableCount_in_range_witness :
  0 <= stableCount full_state <= LOCK_FRAMES /\
  0 <= stableCount (run [Some match_at_4_0; None] full_state) <= LOCK_FRAMES.
Proof.
  assert (H : 0 <= stableCount full_state <= LOCK_FRAMES)
    by (split; discriminate).
  split; [exact H|].
  exact (proj2 (stableCount_in_range full_state H) [Some match_at_4_0; None]).
Defined.

Lemma canvas_ok_frame_6x2 : canvas_ok frame_6x2.
Proof. split; [reflexivity | repeat constructor; lia]. Defined.

Lemma findTemplate_first_minimum_witness :
  0 < STEP /\ canvas_ok frame_6x2 /\ canvas_ok tmpl_2x2 /\
  0 < width tmpl_2x2 <= width frame_6x2 /\
  0 < height tmpl_2x2 <= height frame_6x2 /\
  (sub_sampled_mae frame_6x2 tmpl_2x2 0 0 == 115)%Q /\
  (sub_sampled_mae frame_6x2 tmpl_2x2 4 0 == 0)%Q /\
  exists m, findTemplate frame_6x2 tmpl_2x2 STEP = Normal (Some m) /\
            scanned frame_6x2 tmpl_2x2 STEP (Match.x m) (Match.y m) /\
            Match.score m
            = Fin (Qred (sub_sampled_mae frame_6x2 tmpl_2x2
                                         (Match.x m) (Match.y m))) /\
            (sub_sampled_mae frame_6x2 tmpl_2x2 (Match.x m) (Match.y m)
             <= sub_sampled_mae frame_6x2 tmpl_2x2 4 0)%Q.
Proof.
  assert (H1 : 0 < STEP) by reflexivity.
  pose proof canvas_ok_frame_6x2 as Hf.
  pose proof canvas_ok_tmpl_2x2 as Ht.
  assert (H2 : 0 < width tmpl_2x2 <= width frame_6x2)
    by (split; [reflexivity | discriminate]).
  assert (H3 : 0 < height tmpl_2x2 <= height frame_6x2)
    by (split; [reflexivity | discriminate]).
  assert (H4 : (sub_sampled_mae frame_6x2 tmpl_2x2 0 0 == 115)%Q)
    by (vm_compute; reflexivity).
  assert (H5 : (sub_sampled_mae frame_6x2 tmpl_2x2 4 0 == 0)%Q)
    by (vm_compute; reflexivity).
  repeat (split; [assumption|]).
  destruct (findTemplate_first_minimum frame_6x2 tmpl_2x2 STEP H1 Hf Ht H2 H3)
    as [m [Hm [Hs [Hsc [_ [Hmin _]]]]]].
  exists m. split; [exact Hm|]. split; [exact Hs|]. split; [exact Hsc|].
  exact (proj2 (proj2 (Hmin 4 0 scanned_frame_6x2))).
Defined.

Lemma findTemplate_box_in_frame_witness :
  0 < STEP /\ 0 <= width tmpl_2x2 /\ 0 <= height tmpl_2x2 /\
  findTemplate frame_6x2 tmpl_2x2 STEP = Normal (Some match_at_4_0) /\
  Match.box match_at_4_0
  = Some {| Box.x := 4; Box.y := 0; Box.w := 2; Box.h := 2 |} /\
  0 <= 4 <= width frame_6x2 - width tmpl_2x2 /\ (STEP | 4).
Proof.
  assert (H1 : 0 < STEP) by reflexivity.
  assert (H2 : 0 <= width tmpl_2x2) by discriminate.
  assert (H3 : 0 <= height tmpl_2x2) by discriminate.
  assert (H4 : findTemplate frame_6x2 tmpl_2x2 STEP = Normal (Some match_at_4_0))
    by (vm_compute; reflexivity).
  assert (H5 : Match.box match_at_4_0
               = Some {| Box.x := 4; Box.y := 0; Box.w := 2; Box.h := 2 |})
    by reflexivity.
  repeat (split; [assumption|]).
  destruct (findTemplate_box_in_frame _ _ _ _ _ H1 H2 H3 H4 H5) as [Hx [Hd _]].
  split; [exact Hx | exact Hd].
Defined.


(** * Further properties of the code *)

(** ** What [findTemplate] returns *)

(** The result of a call that returns is the record the scan started from
    or the record of a scanned offset. *)
Lemma findTemplate_result (frame tmpl : Canvas) (step : Z) (r : option Match.t) :
  0 < step -> 0 <= width tmpl -> 0 <= height tmpl ->
  findTemplate frame tmpl step = Normal r ->
  r = Some initial_best \/
  exists x y,
    scanned frame tmpl step x y /\
    r = Some {| Match.x := x; Match.y := y;
                Match.score := score_at frame tmpl x y;
                Match.box := Some {| Box.x := x; Box.y := y;
                                     Box.w := width tmpl;
                                     Box.h := height tmpl |} |}.
Proof.
  intros Hstep Htw Hth Hfind.
  pose proof (findTemplate_Normal _ _ _ _ Hfind) as [Hfw [Hfh [Htw0 Hth0]]].
  rewrite findTemplate_eq in Hfind by assumption.
  injection Hfind as <-. rewrite slide_fold.
  destruct (fold_visit (pixels frame) (width frame)
              (template_gray (pixels tmpl) (width tmpl) (height tmpl))
              (width tmpl) (height tmpl) ltac:(lia) ltac:(lia)
              (scan_order (for_upto (width frame - width tmpl) step)
                          (for_upto (height frame - height tmpl) step)))
    as [[_ Hres] | [l1 [p [l2 [Hl [Hres _]]]]]]; rewrite Hres.
  - left. reflexivity.
  - right. exists (fst p), (snd p). split; [|reflexivity].
    apply scan_order_scanned; [assumption|]. rewrite Hl. apply in_elt.
Qed.

(** ** The score never reaches the threshold *)

Lemma template_gray_range (tData : list Z) (tw th : Z) (n : nat) :
  0 <= nth n (template_gray tData tw th) 0 <= 255.
Proof.
  destruct (nth_in_or_default n (template_gray tData tw th) 0) as [Hin | Heq];
    [|rewrite Heq; lia].
  remember (nth n (template_gray tData tw th) 0) as v eqn:Ev. clear Ev.
  unfold template_gray in Hin. apply in_map_iff in Hin as [k [<- _]].
  unfold clamp8. lia.
Qed.

Lemma abs_diff_range (frame : Canvas) (tGray : list Z) (tw x y ty tx : Z) :
  canvas_ok frame ->
  (forall n, 0 <= nth n tGray 0 <= 255) ->
  0 <= x + tx < width frame -> 0 <= y + ty < height frame ->
  0 <= abs_diff (pixels frame) (width frame) tGray tw x y ty tx <= 255.
Proof.
  intros Hok Hgray Hx Hy. unfold abs_diff. cbv zeta.
  set (fi := ((y + ty) * width frame + (x + tx)) * 4).
  assert (Hfi : 0 <= fi /\ fi + 3 < 4 * width frame * height frame)
    by (unfold fi; nia).
  destruct (read_ok frame (fi + 0) Hok ltac:(lia)) as [r [-> Br]].
  destruct (read_ok frame (fi + 1) Hok ltac:(lia)) as [g [-> Bg]].
  destruct (read_ok frame (fi + 2) Hok ltac:(lia)) as [b [-> Bb]].
  fold (gray r g b).
  pose proof (proj1 (gray_bounds r g b Br Bg Bb)).
  pose proof (Hgray (Z.to_nat (ty * tw + tx))). lia.
Qed.

Lemma Zsum_le (l : list Z) (bound : Z) :
  Forall (fun v => v <= bound) l -> Zsum l <= bound * Z.of_nat (length l).
Proof.
  induction 1 as [|v l Hv Hl IH]; cbn [Zsum fold_right length]; [lia|].
  fold (Zsum l). lia.
Qed.

Lemma for_upto_range (limit step i : Z) :
  0 < step -> In i (for_upto limit step) -> 0 <= i <= limit.
Proof. intros Hstep Hi. apply for_upto_In in Hi; tauto. Qed.

Lemma score_at_range (frame tmpl : Canvas) (x y : Z) :
  canvas_ok frame ->
  0 < width tmpl -> 0 < height tmpl ->
  0 <= x -> x + width tmpl <= width frame ->
  0 <= y -> y + height tmpl <= height frame ->
  exists q, score_at frame tmpl x y = Fin q /\ (0 <= q <= 255)%Q.
Proof.
  intros Hok Htw Hth Hx0 Hx1 Hy0 Hy1. unfold score_at, mae.
  set (tGray := template_gray _ _ _).
  pose proof (window_cnt_pos (pixels frame) (width frame) tGray
                (width tmpl) (height tmpl) Htw Hth x y) as Hc.
  pose proof (window_sum_nonneg (pixels frame) (width frame) tGray
                (width tmpl) (height tmpl) x y) as Hs.
  pose proof (window_sums_eq (pixels frame) (width frame) tGray
                (width tmpl) (height tmpl) x y) as He.
  destruct (window_sums _ _ _ _ _ x y) as [sum cnt].
  cbn [fst snd] in Hc, Hs. injection He as Hsum Hcnt.
  assert (Hle : sum <= 255 * cnt).
  { rewrite Hsum, Hcnt.
    set (txs := for_upto (width tmpl - 1) 2).
    set (tys := for_upto (height tmpl - 1) 2).
    assert (Hrow : forall ty, In ty tys ->
               Zsum (map (abs_diff (pixels frame) (width frame) tGray
                                   (width tmpl) x y ty) txs)
               <= 255 * Z.of_nat (length txs)).
    { intros ty Hty. apply for_upto_range in Hty; [|lia].
      rewrite <- (length_map (abs_diff (pixels frame) (width frame) tGray
                                       (width tmpl) x y ty) txs).
      apply Zsum_le, Forall_forall. intros v Hv.
      apply in_map_iff in Hv as [tx [<- Htx]].
      apply for_upto_range in Htx; [|lia].
      apply abs_diff_range; try assumption; try lia.
      intros n. apply template_gray_range. }
    transitivity (255 * Z.of_nat (length txs) * Z.of_nat (length tys)); [|lia].
    rewrite <- (length_map (fun ty => Zsum (map (abs_diff (pixels frame)
                  (width frame) tGray (width tmpl) x y ty) txs)) tys).
    apply Zsum_le, Forall_forall. intros v Hv.
    apply in_map_iff in Hv as [ty [<- Hty]]. auto. }
  unfold num_div. destruct cnt as [|c|c]; try lia.
  cbn [Z.eqb Z.to_pos]. eexists. split; [reflexivity|].
  rewrite Qred_correct. unfold Qle. cbn. lia.
Qed.

Lemma below_threshold (q : Q) :
  (q <= 255)%Q -> num_ltb (Fin q) MSE_THRESHOLD = true.
Proof.
  intros Hq. cbn. apply Qltb_lt.
  apply Qle_lt_trans with (y := 255%Q); [assumption | reflexivity].
Qed.

(** A frame that takes the template gives a hit, whatever it shows. *)
Lemma findTemplate_hit (frame tmpl : Canvas) (step : Z) :
  0 < step -> canvas_ok frame ->
  0 < width tmpl <= width frame -> 0 < height tmpl <= height frame ->
  exists m b,
    findTemplate frame tmpl step = Normal (Some m) /\
    is_hit (Some m) = true /\ Match.box m = Some b.
Proof.
  intros Hstep Hok Hw Hh.
  destruct (slide_first_minimum frame tmpl step Hstep Hw Hh)
    as [p [[Hx [_ [Hy _]]] [Hres _]]].
  destruct (score_at_range frame tmpl (fst p) (snd p) Hok)
    as [q [Hq [_ Hq255]]]; try lia.
  eexists. eexists. split; [|split].
  - rewrite findTemplate_eq by lia. rewrite Hres. reflexivity.
  - cbn [is_hit Match.score]. rewrite Hq. apply below_threshold. assumption.
  - reflexivity.
Qed.

(** X2: on a well-formed frame every window inside it scores between 0 and
    255: the score is a mean of absolute differences of two luminances in
    [0,255]. *)
Theorem score_between_0_and_255 (frame tmpl : Canvas) (x y : Z) :
  canvas_ok frame ->
  0 < width tmpl -> 0 < height tmpl ->
  0 <= x -> x + width tmpl <= width frame ->
  0 <= y -> y + height tmpl <= height frame ->
  exists q, score_at frame tmpl x y = Fin q /\ (0 <= q <= 255)%Q.
Proof. apply score_at_range. Qed.

(** X3: the threshold 2600 rejects nothing: on every well-formed frame at
    least as large as the template [findTemplate] returns a match with a
    box whose score is below MSE_THRESHOLD, that is a hit. *)
Theorem findTemplate_always_hits (frame tmpl : Canvas) (step : Z) :
  0 < step -> canvas_ok frame ->
  0 < width tmpl <= width frame -> 0 < height tmpl <= height frame ->
  exists m b,
    findTemplate frame tmpl step = Normal (Some m) /\
    Match.box m = Some b /\
    num_ltb (Match.score m) MSE_THRESHOLD = true /\
    hit (Some m).
Proof.
  intros Hstep Hok Hw Hh.
  destruct (findTemplate_hit frame tmpl step Hstep Hok Hw Hh)
    as [m [b [Hfind [Hhit Hbox]]]].
  exists m, b. repeat split; assumption.
Qed.

(** The frames the template fits in. *)
Lemma tick_on_fitting_frame (frame tmpl : Canvas) (st : State) :
  canvas_ok frame ->
  0 < width tmpl <= width frame -> 0 < height tmpl <= height frame ->
  stableCount (tick frame tmpl st) = Z.min LOCK_FRAMES (stableCount st + 1) /\
  lastBox (tick frame tmpl st) <> None /\
  detected (tick frame tmpl st) = locked (tick frame tmpl st).
Proof.
  intros Hok Hw Hh.
  destruct (findTemplate_hit frame tmpl STEP ltac:(reflexivity) Hok Hw Hh)
    as [m [b [Hfind [Hhit Hbox]]]].
  unfold tick. rewrite Hfind, stabilize_count, stabilize_lastBox, Hhit, Hbox.
  split; [reflexivity|]. split; [discriminate | apply stabilize_detected].
Qed.

(** X4: detection locks on anything: from a counter in range, after five
    ticks on well-formed frames at least as large as the template the
    state is locked and holds a box, whatever the frames and the template
    contain. *)
Theorem locks_after_five_frames (tmpl : Canvas) (frames : list Canvas) (st : State) :
  0 < width tmpl -> 0 < height tmpl ->
  Forall (fun frame => canvas_ok frame /\ width tmpl <= width frame /\
                       height tmpl <= height frame) frames ->
  0 <= stableCount st <= LOCK_FRAMES ->
  stableCount (run_ticks tmpl frames st)
  = Z.min LOCK_FRAMES (stableCount st + Z.of_nat (length frames)) /\
  ((5 <= length frames)%nat ->
   locked (run_ticks tmpl frames st) = true /\
   detected (run_ticks tmpl frames st) = true /\
   lastBox (run_ticks tmpl frames st) <> None).
Proof.
  intros Htw Hth Hall Hst.
  assert (Hcount : stableCount (run_ticks tmpl frames st)
                   = Z.min LOCK_FRAMES (stableCount st + Z.of_nat (length frames))).
  { induction frames as [|frame frames IH] using rev_ind.
    - cbn. unfold LOCK_FRAMES in *. lia.
    - apply Forall_app in Hall as [Hfs Hf]. apply Forall_inv in Hf.
      destruct Hf as [Hok [Hw Hh]].
      unfold run_ticks in *. rewrite fold_left_app. cbn [fold_left].
      rewrite (proj1 (tick_on_fitting_frame frame tmpl _ Hok ltac:(lia) ltac:(lia))).
      rewrite IH by assumption. rewrite length_app. cbn [length].
      unfold LOCK_FRAMES in *. lia. }
  split; [exact Hcount|].
  intros Hlen.
  assert (Hlocked : locked (run_ticks tmpl frames st) = true).
  { unfold locked. rewrite Hcount. apply Z.leb_le. unfold LOCK_FRAMES in *. lia. }
  destruct (exists_last (l := frames)) as [fs [frame Hfr]].
  { intros ->. cbn in Hlen. lia. }
  subst frames. apply Forall_app in Hall as [_ Hf]. apply Forall_inv in Hf.
  destruct Hf as [Hok [Hw Hh]].
  unfold run_ticks in *. rewrite fold_left_app in *. cbn [fold_left] in *.
  destruct (tick_on_fitting_frame frame tmpl (fold_left (fun s f => tick f tmpl s) fs st)
              Hok ltac:(lia) ltac:(lia)) as [_ [Hbox Hdet]].
  split; [exact Hlocked|]. split; [|exact Hbox].
  rewrite Hdet. exact Hlocked.
Qed.

(** ** The height of the processing canvas *)

Section HeightFacts.

Import HeightCheck.

Lemma forallb2_In {A : Type} (p : A -> A -> bool) (l : list A) :
  forallb2 p l = true -> forall i j, In i l -> In j l -> p i j = true.
Proof.
  unfold forallb2. intros H i j Hi Hj.
  rewrite forallb_forall in H. specialize (H i Hi).
  rewrite forallb_forall in H. exact (H j Hj).
Qed.

(** Every pair of sizes passes the check. *)
Lemma ok_all_sizes : forallb2 ok sizes = true.
Proof. vm_cast_no_check (eq_refl true). Qed.

Lemma size_in_sizes (z : Z) : 1 <= z <= 4096 -> In (Uint63.of_Z z) sizes.
Proof.
  intros Hz. unfold sizes.
  replace z with (Z.of_nat (Z.to_nat z)) by lia.
  apply in_map with (f := fun n => Uint63.of_Z (Z.of_nat n)).
  apply in_seq. lia.
Qed.

Lemma to_Z_size (z : Z) : 1 <= z <= 4096 -> Uint63.to_Z (Uint63.of_Z z) = z.
Proof.
  intros Hz. rewrite Uint63.of_Z_spec. apply Z.mod_small.
  change wB with 9223372036854775808. lia.
Qed.

Lemma round_twice (f : float) :
  PrimFloat.is_nan f = false ->
  PrimFloat.is_infinity f = false ->
  PrimFloat.get_sign f = false ->
  (snd (PrimFloat.frshiftexp f) <=? 2153)%uint63 = true ->
  (twice f <? 1152921504606846976)%uint63 = true ->
  Math.round f = Uint63.to_Z ((twice f + 1) >> 1)%uint63.
Proof.
  intros Hnan Hinf Hsign He Ht.
  unfold Math.round, twice in *.
  rewrite Hnan, Hinf, Hsign. cbn [orb].
  destruct (PrimFloat.frshiftexp f) as [m e]. cbn [snd] in He.
  apply Uint63.leb_spec in He. apply Uint63.ltb_spec in Ht.
  change (Uint63.to_Z 2153) with 2153 in He.
  change (Uint63.to_Z 1152921504606846976) with 1152921504606846976 in Ht.
  pose proof (Uint63.to_Z_bounded e) as Be.
  set (t := (PrimFloat.normfr_mantissa m >> (2153 - e))%uint63) in *.
  pose proof (Uint63.to_Z_bounded t) as Bt.
  assert (Hsub : Uint63.to_Z (2153 - e)%uint63 = 2153 - Uint63.to_Z e).
  { rewrite Uint63.sub_spec. change (Uint63.to_Z 2153) with 2153.
    apply Z.mod_small. change wB with 9223372036854775808. lia. }
  assert (Htw : Z.shiftl (Uint63.to_Z (PrimFloat.normfr_mantissa m))
                         (Uint63.to_Z e - 2153) = Uint63.to_Z t).
  { unfold t. rewrite Uint63.lsr_spec, Hsub.
    replace (Uint63.to_Z e - 2153) with (- (2153 - Uint63.to_Z e)) by lia.
    rewrite Z.shiftl_opp_r. apply Z.shiftr_div_pow2. lia. }
  rewrite Htw, Uint63.lsr_spec, Uint63.add_spec.
  change (Uint63.to_Z 1) with 1. change wB with 9223372036854775808.
  rewrite Z.mod_small by lia.
  rewrite Z.shiftr_div_pow2 by lia. reflexivity.
Qed.

(** For sizes up to 4096 the height is the rounded quotient 192 vh / vw,
    or, where the doubles fall just below a half, its floor. *)
Lemma frame_height_bounds (vw vh : Z) :
  1 <= vw <= 4096 -> 1 <= vh <= 4096 ->
  192 * vh / vw <= frame_height vw vh <= (384 * vh + vw) / (2 * vw).
Proof.
  intros Hw Hh.
  pose proof (forallb2_In ok sizes ok_all_sizes _ _
                (size_in_sizes vw Hw) (size_in_sizes vh Hh)) as Hok.
  unfold ok in Hok.
  repeat (apply andb_prop in Hok; destruct Hok as [Hok ?]).
  rewrite negb_true_iff in *.
  assert (Hfh : frame_height vw vh
                = Uint63.to_Z ((twice (quotient (Uint63.of_Z vw) (Uint63.of_Z vh)) + 1) >> 1)%uint63).
  { unfold frame_height, Num.of_Z.
    replace (vw <? 0) with false by (symmetry; apply Z.ltb_ge; lia).
    replace (vh <? 0) with false by (symmetry; apply Z.ltb_ge; lia).
    change (if PROC_W <? 0
            then (- PrimFloat.of_uint63 (Uint63.of_Z (- PROC_W)))%float
            else PrimFloat.of_uint63 (Uint63.of_Z PROC_W))
      with (PrimFloat.of_uint63 192).
    apply round_twice; assumption. }
  rewrite Hfh.
  set (ph := ((twice _ + 1) >> 1)%uint63) in *.
  match goal with H : (_ <=? ph)%uint63 = true |- _ =>
    apply Uint63.leb_spec in H; rename H into Hlo end.
  match goal with H : (ph <=? _)%uint63 = true |- _ =>
    apply Uint63.leb_spec in H; rename H into Hhi end.
  rewrite Uint63.div_spec, Uint63.mul_spec, !to_Z_size in Hlo by assumption.
  rewrite Uint63.div_spec, Uint63.add_spec, !Uint63.mul_spec, !to_Z_size in Hhi
    by assumption.
  change (Uint63.to_Z 192) with 192 in Hlo.
  change (Uint63.to_Z 384) with 384 in Hhi.
  change (Uint63.to_Z 2) with 2 in Hhi.
  change wB with 9223372036854775808 in *.
  rewrite (Z.mod_small (192 * vh)) in Hlo by lia.
  rewrite (Z.mod_small (384 * vh)) in Hhi by lia.
  rewrite (Z.mod_small (2 * vw)) in Hhi by lia.
  rewrite (Z.mod_small (384 * vh + vw)) in Hhi by lia.
  lia.
Qed.

End HeightFacts.

(** X5: for every video size up to 4096 x 4096 the processing canvas is
    192 wide and its height lies between the floor of 192 vh / vw and that
    quotient rounded to the nearest integer; so a template of height th
    fits as soon as th * vw <= 192 * vh, and does not fit when
    384 * vh + vw < 2 * th * vw. *)
Theorem frame_height_near_quotient (vw vh : Z) :
  1 <= vw <= 4096 -> 1 <= vh <= 4096 ->
  192 * vh / vw <= frame_height vw vh <= (384 * vh + vw) / (2 * vw) /\
  (forall th, th * vw <= 192 * vh -> th <= frame_height vw vh) /\
  (forall th, 384 * vh + vw < 2 * th * vw -> frame_height vw vh < th).
Proof.
  intros Hw Hh.
  pose proof (frame_height_bounds vw vh Hw Hh) as [Hlo Hhi].
  split; [split; assumption|]. split.
  - intros th Hth.
    assert (th <= 192 * vh / vw) by (apply Z.div_le_lower_bound; lia). lia.
  - intros th Hth.
    assert ((384 * vh + vw) / (2 * vw) < th)
      by (apply Z.div_lt_upper_bound; lia). lia.
Qed.

(** ** The page *)

Lemma findTemplate_low_frame (frame tmpl : Canvas) (step : Z) (r : option Match.t) :
  0 < step -> 0 <= width tmpl -> 0 <= height tmpl ->
  height frame < height tmpl ->
  findTemplate frame tmpl step = Normal r -> r = Some initial_best.
Proof.
  intros Hstep Htw Hth Hlow Hfind.
  destruct (findTemplate_result frame tmpl step r Hstep Htw Hth Hfind)
    as [-> | [x [y [[_ [_ [Hy _]]] _]]]]; [reflexivity | lia].
Qed.

Section PageFacts.

Variable tmpl : Canvas.
Hypotheses (Htw : 0 <= width tmpl) (Hth : 0 <= height tmpl).

Lemma update_hint_overlay (p : bool) (st : State) (u : Ui) :
  overlay (update_hint p st u) = overlay u.
Proof.
  unfold update_hint. destruct (detected st); [reflexivity|].
  destruct p; reflexivity.
Qed.

Lemma anchor_overlay_set (p : bool) (st : State) (vw vh : Z) (r : Rect.t)
      (pw ph : Z) (u : Ui) :
  overlay (anchor_overlay p st vw vh r pw ph u) <> None ->
  overlay u <> None \/ lastBox st <> None.
Proof.
  unfold anchor_overlay. destruct (lastBox st) as [b|]; [right; discriminate|].
  tauto.
Qed.

(** What a processed frame does to the detection state. *)
Lemma stabilize_inv (frame : Canvas) (m : option Match.t) (st : State) :
  width frame = PROC_W ->
  findTemplate frame tmpl STEP = Normal m ->
  0 <= stableCount st <= LOCK_FRAMES ->
  (0 < stableCount st -> lastBox st <> None) ->
  (forall b, lastBox st = Some b -> box_on_grid tmpl b) ->
  0 <= stableCount (stabilize m st) <= LOCK_FRAMES /\
  (0 < stableCount (stabilize m st) -> lastBox (stabilize m st) <> None) /\
  (lastBox st <> None -> lastBox (stabilize m st) <> None) /\
  (forall b, lastBox (stabilize m st) = Some b -> box_on_grid tmpl b).
Proof.
  intros Hfw Hfind Hc Hpos Hgrid.
  rewrite stabilize_count, stabilize_lastBox.
  destruct (findTemplate_result frame tmpl STEP m ltac:(reflexivity) Htw Hth Hfind)
    as [-> | [x [y [Hscan ->]]]].
  - assert (E : is_hit (Some initial_best) = false) by reflexivity.
    rewrite E. unfold LOCK_FRAMES in *.
    split; [lia|]. split; [intros H; apply Hpos; lia|].
    split; [tauto | exact Hgrid].
  - destruct (is_hit _) eqn:Ehit; cbn [Match.box]; unfold LOCK_FRAMES in *.
    + split; [lia|]. split; [discriminate|]. split; [discriminate|].
      intros b Hb. injection Hb as <-.
      destruct Hscan as [Hx [Hdx [Hy Hdy]]]. rewrite Hfw in Hx.
      unfold box_on_grid. cbn [Box.x Box.y Box.w Box.h].
      repeat split; try assumption; lia.
    + split; [lia|]. split; [intros H; apply Hpos; lia|].
      split; [tauto | exact Hgrid].
Qed.

Lemma loop_inv (f : FrameInput) (pg : Page) :
  page_inv tmpl pg -> page_inv tmpl (loop tmpl f pg).
Proof.
  intros Hinv. pose proof Hinv as [Hc [Hd [Hpos [Hplay [Hov Hgrid]]]]].
  unfold loop.
  destruct (PrimFloat.ltb _ _); [exact Hinv|].
  destruct ((videoWidth f =? 0) || (videoHeight f =? 0)); [exact Hinv|].
  destruct (findTemplate (proc_canvas f) tmpl STEP) as [m|] eqn:Hfind;
    [|exact Hinv].
  destruct (stabilize_inv (proc_canvas f) m (core pg) eq_refl Hfind Hc Hpos Hgrid)
    as [Hc' [Hpos' [Hkeep Hgrid']]].
  unfold page_inv. cbn [core playing ui].
  split; [exact Hc'|]. split; [apply stabilize_detected|].
  split; [exact Hpos'|]. split; [auto|]. split; [|exact Hgrid'].
  intros Ho. apply anchor_overlay_set in Ho as [Ho | Ho]; [|exact Ho].
  rewrite update_hint_overlay in Ho. auto.
Qed.

Lemma handle_inv (ev : Event) (pg : Page) :
  page_inv tmpl pg -> page_inv tmpl (handle tmpl ev pg).
Proof.
  intros Hinv. destruct ev as [f| | | | | |g]; cbn [handle].
  - apply loop_inv. exact Hinv.
  - unfold bell_click.
    destruct (negb (detected (core pg)) || playing pg) eqn:E; [exact Hinv|].
    apply orb_false_elim in E as [Ed _]. apply negb_false_iff in Ed.
    destruct Hinv as [Hc [Hd [Hpos [Hplay [Hov Hgrid]]]]].
    unfold page_inv. cbn [core playing ui set_hint_bell overlay].
    split; [exact Hc|]. split; [exact Hd|]. split; [exact Hpos|].
    split; [|split; [exact Hov | exact Hgrid]].
    intros _. apply Hpos. rewrite Hd in Ed. unfold locked in Ed.
    apply Z.leb_le in Ed. unfold LOCK_FRAMES in Ed. lia.
  - exact Hinv.
  - exact Hinv.
  - exact Hinv.
  - destruct Hinv as [Hc [Hd [Hpos [Hplay [Hov Hgrid]]]]].
    unfold page_inv, endAR. cbn [core playing ui overlay].
    split; [exact Hc|]. split; [exact Hd|]. split; [exact Hpos|].
    split; [discriminate|]. split; [exact Hov | exact Hgrid].
  - exact Hinv.
Qed.

Lemma run_events_inv (evs : list Event) (pg : Page) :
  page_inv tmpl pg -> page_inv tmpl (run_events tmpl evs pg).
Proof.
  unfold run_events. revert pg.
  induction evs as [|ev evs IH]; intros pg Hinv; cbn [fold_left].
  - exact Hinv.
  - apply IH, handle_inv, Hinv.
Qed.

Lemma initial_page_inv (u : Ui) : overlay u = None -> page_inv tmpl (initial_page u).
Proof.
  intros Hu. unfold page_inv, initial_page, initial_state, locked, LOCK_FRAMES.
  cbn [core playing ui stableCount detected lastBox].
  split; [lia|]. split; [reflexivity|]. split; [lia|].
  split; [discriminate|]. split; [congruence | discriminate].
Qed.

End PageFacts.

Lemma update_hint_gifs (p : bool) (st : State) (u : Ui) :
  gifs_shown (update_hint p st u) = gifs_shown u.
Proof.
  unfold update_hint. destruct (detected st); [reflexivity|].
  destruct p; reflexivity.
Qed.

Lemma anchor_overlay_gifs (p : bool) (st : State) (vw vh : Z) (r : Rect.t)
      (pw ph : Z) (u : Ui) :
  gifs_shown (anchor_overlay p st vw vh r pw ph u) = gifs_shown u.
Proof.
  unfold anchor_overlay. destruct (lastBox st); [|reflexivity].
  destruct (p || detected st); reflexivity.
Qed.

Lemma loop_gifs (tmpl : Canvas) (f : FrameInput) (pg : Page) :
  gifs_shown (ui (loop tmpl f pg)) = gifs_shown (ui pg).
Proof.
  unfold loop. destruct (PrimFloat.ltb _ _); [reflexivity|].
  destruct ((videoWidth f =? 0) || (videoHeight f =? 0)); [reflexivity|].
  destruct (findTemplate _ _ _); [|reflexivity].
  cbn [ui]. rewrite anchor_overlay_gifs. apply update_hint_gifs.
Qed.

Lemma loop_counter (tmpl : Canvas) (f : FrameInput) (pg : Page) :
  0 <= stableCount (core pg) <= LOCK_FRAMES ->
  detected (core pg) = locked (core pg) ->
  0 <= stableCount (core (loop tmpl f pg)) <= LOCK_FRAMES /\
  detected (core (loop tmpl f pg)) = locked (core (loop tmpl f pg)).
Proof.
  intros Hc Hd. unfold loop. destruct (PrimFloat.ltb _ _); [tauto|].
  destruct ((videoWidth f =? 0) || (videoHeight f =? 0)); [tauto|].
  destruct (findTemplate _ _ _) as [m|]; [|tauto].
  cbn [core]. split; [|apply stabilize_detected].
  rewrite stabilize_count. destruct (is_hit m); unfold LOCK_FRAMES in *; lia.
Qed.

(** X6: whatever callbacks run, in whatever order, from the state the
    script starts in, the counter stays within 0..LOCK_FRAMES and the
    flag [detected] read by the bell is the lock of the counter
    (stableCount >= LOCK_FRAMES - 1): only a processed frame changes
    either. *)
Theorem page_counter_and_flag (tmpl : Canvas) (evs : list Event) (u : Ui) :
  let pg := run_events tmpl evs (initial_page u) in
  0 <= stableCount (core pg) <= LOCK_FRAMES /\
  detected (core pg) = (LOCK_FRAMES - 1 <=? stableCount (core pg)).
Proof.
  cbv zeta. fold (locked (core (run_events tmpl evs (initial_page u)))).
  assert (H0 : 0 <= stableCount (core (initial_page u)) <= LOCK_FRAMES /\
               detected (core (initial_page u)) = locked (core (initial_page u))).
  { unfold LOCK_FRAMES. cbn. split; [lia | reflexivity]. }
  revert H0. generalize (initial_page u). unfold run_events.
  induction evs as [|ev evs IH]; intros pg Hpg; cbn [fold_left]; [exact Hpg|].
  apply IH. destruct Hpg as [Hc Hd].
  destruct ev as [f| | | | | |g]; cbn [handle].
  - apply loop_counter; assumption.
  - unfold bell_click. destruct (_ || _); split; assumption.
  - split; assumption.
  - split; assumption.
  - split; assumption.
  - split; assumption.
  - split; assumption.
Qed.

(** X7: from the starting page with an untouched overlay, whatever
    callbacks run: playback is only ever on, the page only ever detected
    and the overlay only ever positioned while a box is recorded, and a
    recorded box always has the template's size and sits on the search
    grid inside the 192-wide frame (0 <= x <= 192 - tw, x and y multiples
    of 4, y >= 0). *)
Theorem recorded_box_on_grid (tmpl : Canvas) (evs : list Event) (u : Ui) :
  0 <= width tmpl -> 0 <= height tmpl -> overlay u = None ->
  let pg := run_events tmpl evs (initial_page u) in
  (playing pg = true \/ detected (core pg) = true \/ overlay (ui pg) <> None ->
   exists b, lastBox (core pg) = Some b) /\
  (forall b, lastBox (core pg) = Some b ->
             Box.w b = width tmpl /\ Box.h b = height tmpl /\
             0 <= Box.x b <= 192 - width tmpl /\ (4 | Box.x b) /\
             0 <= Box.y b /\ (4 | Box.y b)).
Proof.
  intros Htw Hth Hu. cbv zeta.
  pose proof (run_events_inv tmpl Htw Hth evs _ (initial_page_inv tmpl u Hu))
    as [Hc [Hd [Hpos [Hplay [Hov Hgrid]]]]].
  split; [|exact Hgrid].
  intros H.
  assert (Hsome : lastBox (core (run_events tmpl evs (initial_page u))) <> None).
  { destruct H as [H | [H | H]]; [auto | | auto].
    apply Hpos. rewrite Hd in H. unfold locked in H. apply Z.leb_le in H.
    unfold LOCK_FRAMES in H. lia. }
  destruct (lastBox _) as [b|]; [exists b; reflexivity | contradiction].
Qed.

(** X8: no callback ever leaves two GIFs shown: if at most one of the
    three is shown, the same holds after any callbacks in any order, and
    none is shown once [endAR] has run. *)
Theorem at_most_one_gif (tmpl : Canvas) (evs : list Event) (pg : Page) :
  (gifs_shown (ui pg) <= 1)%nat ->
  (gifs_shown (ui (run_events tmpl evs pg)) <= 1)%nat /\
  gifs_shown (ui (run_events tmpl (evs ++ [Timer15s]) pg)) = 0%nat.
Proof.
  intros H. split.
  - revert pg H. unfold run_events.
    induction evs as [|ev evs IH]; intros pg H; cbn [fold_left]; [exact H|].
    apply IH. destruct ev as [f| | | | | |g]; cbn [handle].
    + rewrite loop_gifs. exact H.
    + unfold bell_click. destruct (_ || _); exact H.
    + cbn. lia.
    + cbn. lia.
    + cbn. lia.
    + cbn. lia.
    + unfold gifs_shown in *. cbn [gif_error ui gif1_hidden gif2_hidden gif3_hidden].
      destruct g, (gif1_hidden (ui pg)), (gif2_hidden (ui pg)),
        (gif3_hidden (ui pg)); cbn in *; lia.
  - unfold run_events. rewrite fold_left_app. reflexivity.
Qed.

(** ** Frames through the loop *)

Lemma run_frames_cons (tmpl : Canvas) (f : FrameInput) (fs : list FrameInput)
      (pg : Page) :
  run_events tmpl (map AnimationFrame (f :: fs)) pg =
  run_events tmpl (map AnimationFrame fs) (loop tmpl f pg).
Proof. reflexivity. Qed.

(** A processed frame whose canvas takes the template. *)
Lemma loop_fitting_frame (tmpl : Canvas) (f : FrameInput) (pg : Page) :
  0 < width tmpl <= PROC_W -> 0 < height tmpl ->
  (now f - last pg <? tickInterval)%float = false ->
  fits tmpl f ->
  let pg' := loop tmpl f pg in
  last pg' = now f /\
  stableCount (core pg') = Z.min LOCK_FRAMES (stableCount (core pg) + 1) /\
  detected (core pg') = locked (core pg') /\
  lastBox (core pg') <> None /\
  (detected (core pg') = true ->
   hint (ui pg') = "Target found! Tap the bell to start."%string /\
   bell_hidden (ui pg') = false /\
   overlay (ui pg') <> None).
Proof.
  intros Htw Hth Hnow [Hvw [Hvh [Hfit Hok]]]. cbv zeta.
  assert (Hph : height tmpl <= frame_height (videoWidth f) (videoHeight f)).
  { pose proof (frame_height_bounds _ _ Hvw Hvh) as [Hlo _].
    assert (height tmpl <= 192 * videoHeight f / videoWidth f)
      by (apply Z.div_le_lower_bound; lia). lia. }
  destruct (findTemplate_hit (proc_canvas f) tmpl STEP ltac:(reflexivity) Hok
              ltac:(cbn [width proc_canvas]; lia)
              ltac:(cbn [height proc_canvas]; lia))
    as [m [b [Hfind [Hhit Hbox]]]].
  unfold loop. rewrite Hnow.
  replace ((videoWidth f =? 0) || (videoHeight f =? 0)) with false
    by (symmetry; apply orb_false_intro; apply Z.eqb_neq; lia).
  rewrite Hfind. cbn [last core ui].
  assert (Hlast : lastBox (stabilize (Some m) (core pg)) = Some b)
    by (rewrite stabilize_lastBox, Hhit; exact Hbox).
  split; [reflexivity|].
  split; [rewrite stabilize_count, Hhit; reflexivity|].
  split; [apply stabilize_detected|].
  split; [rewrite Hlast; discriminate|].
  intros Hdet.
  unfold anchor_overlay, update_hint. rewrite Hlast, Hdet, orb_true_r.
  cbn. repeat split. discriminate.
Qed.

Lemma run_fitting_frames (tmpl : Canvas) (fs : list FrameInput) (pg : Page) :
  0 < width tmpl <= PROC_W -> 0 < height tmpl ->
  0 <= stableCount (core pg) <= LOCK_FRAMES ->
  spaced (last pg) fs -> Forall (fits tmpl) fs ->
  let pg' := run_events tmpl (map AnimationFrame fs) pg in
  stableCount (core pg')
  = Z.min LOCK_FRAMES (stableCount (core pg) + Z.of_nat (length fs)) /\
  (fs <> [] ->
   detected (core pg') = locked (core pg') /\
   lastBox (core pg') <> None /\
   (detected (core pg') = true ->
    hint (ui pg') = "Target found! Tap the bell to start."%string /\
    bell_hidden (ui pg') = false /\
    overlay (ui pg') <> None)).
Proof.
  intros Htw Hth. revert pg.
  induction fs as [|f fs IH]; intros pg Hc Hsp Hall; cbv zeta.
  - split; [|congruence]. cbn. unfold LOCK_FRAMES in *. lia.
  - destruct Hsp as [Hnow Hsp].
    pose proof (Forall_inv Hall) as Hf. apply Forall_inv_tail in Hall.
    destruct (loop_fitting_frame tmpl f pg Htw Hth Hnow Hf)
      as [Hlast [Hcount [Hdet [Hbox Hui]]]].
    rewrite run_frames_cons.
    rewrite <- Hlast in Hsp.
    assert (Hc' : 0 <= stableCount (core (loop tmpl f pg)) <= LOCK_FRAMES)
      by (rewrite Hcount; unfold LOCK_FRAMES in *; lia).
    destruct (IH (loop tmpl f pg) Hc' Hsp Hall) as [IHc IHne].
    split.
    + rewrite IHc, Hcount. cbn [length]. unfold LOCK_FRAMES in *. lia.
    + intros _. destruct fs as [|f' fs'].
      * cbn [map]. unfold run_events. cbn [fold_left].
        split; [exact Hdet|]. split; [exact Hbox | exact Hui].
      * apply IHne. discriminate.
Qed.

(** X9: the page locks on any picture.  Take a template no wider than 192
    and frames of a video of a size up to 4096 x 4096 whose processing
    canvas is at least as high as the template (th * vw <= 192 * vh), each
    at least [tickInterval] after the one before: every one of them is a
    hit, and from the fifth on the page is detected, the hint says
    "Target found!", the bell is shown and the overlay is positioned on the
    recorded box, whatever the camera shows. *)
Theorem page_locks_on_any_picture (tmpl : Canvas) (fs : list FrameInput) (u : Ui) :
  0 < width tmpl <= 192 -> 0 < height tmpl ->
  spaced 0%float fs -> Forall (fits tmpl) fs ->
  let pg := run_events tmpl (map AnimationFrame fs) (initial_page u) in
  stableCount (core pg) = Z.min LOCK_FRAMES (Z.of_nat (length fs)) /\
  ((5 <= length fs)%nat ->
   detected (core pg) = true /\
   hint (ui pg) = "Target found! Tap the bell to start."%string /\
   bell_hidden (ui pg) = false /\
   (exists b, lastBox (core pg) = Some b) /\
   overlay (ui pg) <> None).
Proof.
  intros Htw Hth Hsp Hall. cbv zeta.
  destruct (run_fitting_frames tmpl fs (initial_page u) Htw Hth
              ltac:(unfold LOCK_FRAMES; cbn; lia) Hsp Hall) as [Hc Hne].
  cbn [initial_page core initial_state stableCount] in Hc.
  split; [rewrite Hc; reflexivity|].
  intros Hlen.
  destruct Hne as [Hdet [Hbox Hui]]; [intros ->; cbn in Hlen; lia|].
  assert (Hd : detected (core (run_events tmpl (map AnimationFrame fs)
                                          (initial_page u))) = true).
  { rewrite Hdet. unfold locked. rewrite Hc. apply Z.leb_le.
    unfold LOCK_FRAMES. lia. }
  destruct (Hui Hd) as [Hh [Hb Ho]].
  split; [exact Hd|]. split; [exact Hh|]. split; [exact Hb|].
  split; [|exact Ho].
  destruct (lastBox _) as [b|]; [exists b; reflexivity | contradiction].
Qed.

(** A frame too low for the template, or no frame. *)
Lemma handle_no_fitting_frame (tmpl : Canvas) (ev : Event) (pg : Page) :
  0 <= width tmpl ->
  no_fitting_frame tmpl ev ->
  playing pg = false -> core pg = initial_state ->
  playing (handle tmpl ev pg) = false /\
  core (handle tmpl ev pg) = initial_state /\
  overlay (ui (handle tmpl ev pg)) = overlay (ui pg).
Proof.
  intros Htw Hev Hplay Hcore.
  destruct ev as [f| | | | | |g]; cbn [handle].
  - unfold loop. destruct (PrimFloat.ltb _ _); [tauto|].
    destruct ((videoWidth f =? 0) || (videoHeight f =? 0)) eqn:Ez; [tauto|].
    apply orb_false_elim in Ez as [Ew Eh]. apply Z.eqb_neq in Ew, Eh.
    destruct Hev as [Hev | [Hev | [Hvw [Hvh Hwide]]]]; [contradiction.. |].
    destruct (findTemplate (proc_canvas f) tmpl STEP) as [m|] eqn:Hfind; [|tauto].
    pose proof (frame_height_bounds _ _ Hvw Hvh) as [_ Hhi].
    assert (Hlow : height (proc_canvas f) < height tmpl).
    { cbn [height proc_canvas].
      assert ((384 * videoHeight f + videoWidth f) / (2 * videoWidth f)
              < height tmpl) by (apply Z.div_lt_upper_bound; lia).
      lia. }
    assert (Hth : 0 <= height tmpl) by nia.
    rewrite (findTemplate_low_frame (proc_canvas f) tmpl STEP m
               ltac:(reflexivity) Htw Hth Hlow Hfind).
    cbn [playing core ui]. rewrite Hcore, Hplay.
    split; [reflexivity|]. split; [reflexivity|].
    unfold anchor_overlay. cbn. reflexivity.
  - unfold bell_click. rewrite Hcore. cbn. tauto.
  - cbn. tauto.
  - cbn. tauto.
  - cbn. tauto.
  - cbn. tauto.
  - cbn. tauto.
Qed.

(** X10: a video too wide is never detected.  When every frame comes from
    a video that is not ready or whose size (up to 4096 x 4096) makes the
    processing canvas lower than the template
    (384 * vh + vw < 2 * th * vw), then whatever callbacks run, clicks on
    the bell included, the page stays as it started: not detected, counter
    0, no box, not playing, overlay untouched. *)
Theorem wide_video_never_detected (tmpl : Canvas) (evs : list Event) (u : Ui) :
  0 <= width tmpl ->
  Forall (no_fitting_frame tmpl) evs ->
  let pg := run_events tmpl evs (initial_page u) in
  detected (core pg) = false /\ stableCount (core pg) = 0 /\
  lastBox (core pg) = None /\ playing pg = false /\
  overlay (ui pg) = overlay u.
Proof.
  intros Htw Hall. cbv zeta.
  assert (H : playing (run_events tmpl evs (initial_page u)) = false /\
              core (run_events tmpl evs (initial_page u)) = initial_state /\
              overlay (ui (run_events tmpl evs (initial_page u))) = overlay u).
  { assert (H0 : playing (initial_page u) = false /\
                 core (initial_page u) = initial_state /\
                 overlay (ui (initial_page u)) = overlay u)
      by (repeat split).
    revert H0. generalize (initial_page u). unfold run_events.
    induction Hall as [|ev evs Hev Hall IH]; intros pg Hpg; cbn [fold_left];
      [exact Hpg|].
    apply IH. destruct Hpg as [Hp [Hc Ho]].
    destruct (handle_no_fitting_frame tmpl ev pg Htw Hev Hp Hc) as [Hp' [Hc' Ho']].
    split; [exact Hp'|]. split; [exact Hc'|]. rewrite Ho'. exact Ho. }
  destruct H as [Hp [Hc Ho]]. rewrite Hc.
  repeat split; assumption.
Qed.

(** ** What the scan does not read *)

Lemma fold_left_ext_in {A B : Type} (f g : A -> B -> A) (l : list B) (a : A) :
  (forall acc b, In b l -> f acc b = g acc b) ->
  fold_left f l a = fold_left g l a.
Proof.
  revert a. induction l as [|b l IH]; intros a H; cbn [fold_left]; [reflexivity|].
  rewrite (H a b (or_introl eq_refl)). apply IH.
  intros acc b' Hb'. apply H. right. exact Hb'.
Qed.

Lemma mae_same_samples (frame frame' tmpl tmpl' : Canvas) (step x y : Z) :
  0 < step -> (2 | step) ->
  same_samples frame frame' -> same_samples tmpl tmpl' ->
  scanned frame tmpl step x y ->
  score_at frame tmpl x y = score_at frame' tmpl' x y.
Proof.
  intros Hstep Heven [Hfw [Hfh Hf]] [Htw [Hth Ht]] [Hx [Hdx [Hy Hdy]]].
  unfold score_at, mae. rewrite !window_sums_eq. rewrite <- Hfw, <- Htw, <- Hth.
  assert (Hcell : forall ty tx,
             In ty (for_upto (height tmpl - 1) 2) ->
             In tx (for_upto (width tmpl - 1) 2) ->
             abs_diff (pixels frame) (width frame)
                      (template_gray (pixels tmpl) (width tmpl) (height tmpl))
                      (width tmpl) x y ty tx =
             abs_diff (pixels frame') (width frame)
                      (template_gray (pixels tmpl') (width tmpl) (height tmpl))
                      (width tmpl) x y ty tx).
  { intros ty tx Hty Htx.
    apply for_upto_In in Hty as [Hty Hdty]; [|lia].
    apply for_upto_In in Htx as [Htx Hdtx]; [|lia].
    assert (Hex : (2 | x + tx)).
    { apply Z.divide_add_r; [apply Z.divide_trans with step|]; assumption. }
    assert (Hey : (2 | y + ty)).
    { apply Z.divide_add_r; [apply Z.divide_trans with step|]; assumption. }
    assert (Hti : 0 <= ty * width tmpl + tx < width tmpl * height tmpl) by nia.
    unfold abs_diff. cbv zeta.
    rewrite !(Hf (x + tx) (y + ty)) by (assumption || lia).
    rewrite !template_gray_nth by assumption.
    rewrite !(Ht tx ty) by (assumption || lia).
    reflexivity. }
  rewrite (map_ext_in _ _ _
             (fun ty Hty => f_equal Zsum (map_ext_in _ _ _ (fun tx => Hcell ty tx Hty)))).
  reflexivity.
Qed.

(** X11: with an even stride the scan reads only pixels whose row and
    column are both even, and never the alpha channel: two frames, and two
    templates, of the same sizes that agree in red, green and blue at those
    pixels give the same result, exception included. *)
Theorem findTemplate_reads_even_pixels (frame frame' tmpl tmpl' : Canvas) (step : Z) :
  0 < step -> (2 | step) ->
  same_samples frame frame' -> same_samples tmpl tmpl' ->
  findTemplate frame tmpl step = findTemplate frame' tmpl' step.
Proof.
  intros Hstep Heven Hf Ht.
  pose proof Hf as [Hfw [Hfh _]]. pose proof Ht as [Htw [Hth _]].
  unfold findTemplate, getImageData. rewrite <- Hfw, <- Hfh, <- Htw, <- Hth.
  destruct ((width frame =? 0) || (height frame =? 0)); [reflexivity|].
  destruct ((width tmpl =? 0) || (height tmpl =? 0)); [reflexivity|].
  do 2 f_equal. unfold slide. rewrite !fold_scan_order.
  apply fold_left_ext_in. intros best p Hp.
  apply scan_order_scanned in Hp; [|assumption].
  pose proof (mae_same_samples frame frame' tmpl tmpl' step (fst p) (snd p)
                Hstep Heven Hf Ht Hp) as Hmae.
  unfold score_at in Hmae. rewrite <- Hfw, <- Htw, <- Hth in Hmae.
  unfold consider. rewrite Hmae. reflexivity.
Qed.

(** ** The template and the camera *)


Section CameraFacts.

Variables (Stream : Type) (getUserMedia : Constraints -> option Stream).

Lemma try_constraints_spec (cs tried : list Constraints) :
  let r := try_constraints Stream getUserMedia cs tried in
  (exists done rest, cs = done ++ rest /\ asked r = tried ++ done /\
                     (forall c, In c done -> stream r = None -> getUserMedia c = None)) /\
  (stream r = None <-> alerted r = true) /\
  (stream r = None <-> forall c, In c cs -> getUserMedia c = None) /\
  (forall s, stream r = Some s ->
             exists before c after,
               cs = before ++ c :: after /\ asked r = tried ++ before ++ [c] /\
               getUserMedia c = Some s /\
               forall c', In c' before -> getUserMedia c' = None).
Proof.
  revert tried. induction cs as [|c cs IH]; intros tried; cbv zeta;
    cbn [try_constraints].
  - cbn [stream asked alerted]. split; [|split; [|split]].
    + exists [], [].
      split; [reflexivity|]. split; [symmetry; apply app_nil_r|].
      intros c Hc. destruct Hc.
    + tauto.
    + split; [intros _ c Hc; destruct Hc | reflexivity].
    + discriminate.
  - destruct (getUserMedia c) as [s|] eqn:Ec.
    + cbn [stream asked alerted]. split; [|split; [|split]].
      * exists [c], cs.
        split; [reflexivity|]. split; [reflexivity|]. discriminate.
      * split; discriminate.
      * split; [discriminate|]. intros H.
        specialize (H c (or_introl eq_refl)). congruence.
      * intros s' Hs. injection Hs as <-. exists [], c, cs.
        split; [reflexivity|]. split; [reflexivity|].
        split; [assumption|]. intros c' Hc'. destruct Hc'.
    + specialize (IH (tried ++ [c])). cbv zeta in IH.
      destruct IH as [[done [rest [Hcs [Hasked Hnone]]]] [Hal [Hall Hsome]]].
      split; [|split; [|split]].
      * exists (c :: done), rest.
        split; [cbn [app]; f_equal; exact Hcs|].
        split; [rewrite Hasked, <- app_assoc; reflexivity|].
        intros c' [<- | Hc'] Hs; [assumption | auto].
      * exact Hal.
      * rewrite Hall. split.
        -- intros H c' [<- | Hc']; [assumption | auto].
        -- intros H c' Hc'. apply H. right. exact Hc'.
      * intros s Hs. destruct (Hsome s Hs) as [before [c1 [after [Hb [Ha [Hg Hn]]]]]].
        exists (c :: before), c1, after.
        split; [cbn [app]; f_equal; exact Hb|].
        split; [rewrite Ha, <- app_assoc; reflexivity|].
        split; [assumption|].
        intros c' [<- | Hc']; [assumption | auto].
Qed.

End CameraFacts.

(** X13: [startCamera] asks for the rear camera exactly, then for the rear
    camera, then for any camera, and stops at the first request that is
    granted: the stream kept is the one of that request, every request
    made before it was refused, none is made after it, and the alert is
    shown exactly when all three are refused, in which case no stream is
    kept. *)
Theorem startCamera_first_granted (Stream : Type)
        (getUserMedia : Constraints -> option Stream) :
  let r := startCamera Stream getUserMedia in
  (alerted r = true <->
   getUserMedia ExactEnvironment = None /\ getUserMedia Environment = None /\
   getUserMedia AnyCamera = None) /\
  (alerted r = true <-> stream r = None) /\
  (alerted r = true -> asked r = constraintsList) /\
  (forall s, stream r = Some s ->
             exists before c after,
               constraintsList = before ++ c :: after /\
               asked r = before ++ [c] /\
               getUserMedia c = Some s /\
               forall c', In c' before -> getUserMedia c' = None).
Proof.
  cbv zeta. unfold startCamera.
  pose proof (try_constraints_spec Stream getUserMedia constraintsList [])
    as [[done [rest [Hcs [Hasked Hnone]]]] [Hal [Hall Hsome]]].
  cbv zeta in *. cbn [app] in *.
  split; [|split; [|split]].
  - rewrite <- Hal, Hall. unfold constraintsList. cbn [In]. split.
    + intros H. repeat split; apply H; tauto.
    + intros [H1 [H2 H3]] c [<- | [<- | [<- | []]]]; assumption.
  - symmetry. exact Hal.
  - intros Ha. apply Hal in Ha.
    unfold constraintsList. cbn [try_constraints].
    assert (H := proj1 Hall Ha). unfold constraintsList in H. cbn [In] in H.
    rewrite (H ExactEnvironment), (H Environment), (H AnyCamera) by tauto.
    reflexivity.
  - exact Hsome.
Qed.

(** ** Playback *)

Lemma loop_playback (tmpl : Canvas) (f : FrameInput) (pg : Page) :
  playing (loop tmpl f pg) = playing pg /\
  gif_flags (ui (loop tmpl f pg)) = gif_flags (ui pg).
Proof.
  unfold loop. destruct (PrimFloat.ltb _ _); [tauto|].
  destruct ((videoWidth f =? 0) || (videoHeight f =? 0)); [tauto|].
  destruct (findTemplate _ _ _); [|tauto].
  cbn [playing ui]. split; [reflexivity|].
  unfold anchor_overlay, update_hint.
  destruct (lastBox _), (playing pg), (detected _); reflexivity.
Qed.

Lemma run_events_app (tmpl : Canvas) (evs evs' : list Event) (pg : Page) :
  run_events tmpl (evs ++ evs') pg = run_events tmpl evs' (run_events tmpl evs pg).
Proof. unfold run_events. apply fold_left_app. Qed.

Lemma run_events_cons (tmpl : Canvas) (ev : Event) (evs : list Event) (pg : Page) :
  run_events tmpl (ev :: evs) pg = run_events tmpl evs (handle tmpl ev pg).
Proof. reflexivity. Qed.

Lemma background_playing (tmpl : Canvas) (evs : list Event) (pg : Page) :
  Forall background evs -> playing pg = true ->
  playing (run_events tmpl evs pg) = true /\
  gif_flags (ui (run_events tmpl evs pg)) = gif_flags (ui pg).
Proof.
  unfold run_events. intros Hall. revert pg.
  induction Hall as [|ev evs Hev Hall IH]; intros pg Hp; cbn [fold_left];
    [tauto|].
  assert (Hstep : playing (handle tmpl ev pg) = true /\
                  gif_flags (ui (handle tmpl ev pg)) = gif_flags (ui pg)).
  { destruct ev as [f| | | | | |g]; try contradiction; cbn [handle].
    - destruct (loop_playback tmpl f pg) as [H1 H2]. rewrite H1. tauto.
    - unfold bell_click. rewrite Hp, orb_true_r. tauto. }
  destruct Hstep as [Hp' Hg']. destruct (IH _ Hp') as [Hp'' Hg''].
  split; [exact Hp''|]. rewrite Hg''. exact Hg'.
Qed.

(** X14: detection running underneath does not disturb playback.  After
    a click on a detected page that is not playing, with any frames and
    further clicks in between: playing stays on, the first GIF alone is
    shown once the music call has settled, the second alone after the 5 s
    timer, the third alone after the 10 s timer, and after the 15 s timer
    nothing is shown and playing is off. *)
Theorem playback_undisturbed (tmpl : Canvas) (b0 b1 b2 b3 : list Event) (pg : Page) :
  detected (core pg) = true -> playing pg = false ->
  Forall background b0 -> Forall background b1 ->
  Forall background b2 -> Forall background b3 ->
  let p1 := run_events tmpl (BellClick :: b0 ++ PlaySettled :: b1) pg in
  let p2 := run_events tmpl (Timer5s :: b2) p1 in
  let p3 := run_events tmpl (Timer10s :: b3) p2 in
  let p4 := handle tmpl Timer15s p3 in
  (playing p1 = true /\ gif_flags (ui p1) = (false, true, true, true)) /\
  (playing p2 = true /\ gif_flags (ui p2) = (true, false, true, true)) /\
  (playing p3 = true /\ gif_flags (ui p3) = (true, true, false, true)) /\
  (playing p4 = false /\ gif_flags (ui p4) = (true, true, true, true)).
Proof.
  intros Hdet Hplay H0 H1 H2 H3. cbv zeta.
  assert (Hclick : playing (bell_click pg) = true).
  { unfold bell_click. rewrite Hdet, Hplay. reflexivity. }
  assert (Hp1 : playing (run_events tmpl (BellClick :: b0 ++ PlaySettled :: b1) pg)
                = true /\
                gif_flags (ui (run_events tmpl (BellClick :: b0 ++ PlaySettled :: b1) pg))
                = (false, true, true, true)).
  { rewrite run_events_cons, run_events_app, run_events_cons. cbn [handle].
    destruct (background_playing tmpl b0 (bell_click pg) H0 Hclick) as [Ha _].
    destruct (background_playing tmpl b1
                (bell_resume (run_events tmpl b0 (bell_click pg))) H1 Ha)
      as [Hb Hg].
    split; [exact Hb | rewrite Hg; reflexivity]. }
  destruct Hp1 as [Hp1 Hg1]. split; [split; assumption|].
  set (p1 := run_events tmpl (BellClick :: b0 ++ PlaySettled :: b1) pg) in *.
  rewrite !run_events_cons. cbn [handle].
  destruct (background_playing tmpl b2 (show_gif gif2 p1) H2 Hp1) as [Hp2 Hg2].
  split; [split; [exact Hp2 | rewrite Hg2; reflexivity]|].
  set (p2 := run_events tmpl b2 (show_gif gif2 p1)) in *.
  destruct (background_playing tmpl b3 (show_gif gif3 p2) H3 Hp2) as [Hp3 Hg3].
  split; [split; [exact Hp3 | rewrite Hg3; reflexivity]|].
  split; reflexivity.
Qed.

(** ** The further properties at concrete inputs *)

Lemma canvas_ok_black (t : float) : canvas_ok (proc_canvas (black_frame t)).
Proof.
  split; [reflexivity|].
  apply Forall_forall. intros v Hv. apply repeat_spec in Hv. subst v. lia.
Defined.

Lemma fits_black (t : float) : fits tmpl_2x2 (black_frame t).
Proof.
  unfold fits. cbn [videoWidth videoHeight black_frame height tmpl_2x2].
  repeat split; try lia; apply canvas_ok_black.
Defined.

Lemma score_between_0_and_255_witness :
  canvas_ok frame_6x2 /\
  0 < width tmpl_2x2 /\ 0 < height tmpl_2x2 /\
  0 <= 4 /\ 4 + width tmpl_2x2 <= width frame_6x2 /\
  0 <= 0 /\ 0 + height tmpl_2x2 <= height frame_6x2 /\
  exists q, score_at frame_6x2 tmpl_2x2 4 0 = Fin q /\ (0 <= q <= 255)%Q.
Proof.
  pose proof canvas_ok_frame_6x2 as H1.
  assert (H2 : 0 < width tmpl_2x2) by reflexivity.
  assert (H3 : 0 < height tmpl_2x2) by reflexivity.
  assert (H4 : 0 <= 4) by discriminate.
  assert (H5 : 4 + width tmpl_2x2 <= width frame_6x2) by discriminate.
  assert (H6 : 0 <= 0) by discriminate.
  assert (H7 : 0 + height tmpl_2x2 <= height frame_6x2) by discriminate.
  repeat (split; [assumption|]).
  exact (score_between_0_and_255 frame_6x2 tmpl_2x2 4 0 H1 H2 H3 H4 H5 H6 H7).
Defined.

Lemma findTemplate_always_hits_witness :
  0 < STEP /\ canvas_ok frame_6x2 /\
  0 < width tmpl_2x2 <= width frame_6x2 /\
  0 < height tmpl_2x2 <= height frame_6x2 /\
  exists m b,
    findTemplate frame_6x2 tmpl_2x2 STEP = Normal (Some m) /\
    Match.box m = Some b /\
    num_ltb (Match.score m) MSE_THRESHOLD = true /\ hit (Some m).
Proof.
  assert (H1 : 0 < STEP) by reflexivity.
  pose proof canvas_ok_frame_6x2 as H2.
  assert (H3 : 0 < width tmpl_2x2 <= width frame_6x2)
    by (split; [reflexivity | discriminate]).
  assert (H4 : 0 < height tmpl_2x2 <= height frame_6x2)
    by (split; [reflexivity | discriminate]).
  repeat (split; [assumption|]).
  exact (findTemplate_always_hits frame_6x2 tmpl_2x2 STEP H1 H2 H3 H4).
Defined.

Lemma locks_after_five_frames_witness :
  0 < width tmpl_2x2 /\ 0 < height tmpl_2x2 /\
  Forall (fun frame => canvas_ok frame /\ width tmpl_2x2 <= width frame /\
                       height tmpl_2x2 <= height frame)
         (repeat frame_6x2 5) /\
  0 <= stableCount initial_state <= LOCK_FRAMES /\
  locked (run_ticks tmpl_2x2 (repeat frame_6x2 5) initial_state) = true.
Proof.
  assert (H1 : 0 < width tmpl_2x2) by reflexivity.
  assert (H2 : 0 < height tmpl_2x2) by reflexivity.
  assert (H3 : Forall (fun frame => canvas_ok frame /\
                                    width tmpl_2x2 <= width frame /\
                                    height tmpl_2x2 <= height frame)
                      (repeat frame_6x2 5)).
  { repeat constructor; try apply canvas_ok_frame_6x2; discriminate. }
  assert (H4 : 0 <= stableCount initial_state <= LOCK_FRAMES)
    by (split; discriminate).
  repeat (split; [assumption|]).
  destruct (locks_after_five_frames tmpl_2x2 (repeat frame_6x2 5) initial_state
              H1 H2 H3 H4) as [_ Hlock].
  exact (proj1 (Hlock (le_n 5))).
Defined.

Lemma frame_height_near_quotient_witness :
  1 <= 1920 <= 4096 /\ 1 <= 1080 <= 4096 /\
  192 * 1080 / 1920 <= frame_height 1920 1080
  <= (384 * 1080 + 1920) / (2 * 1920) /\
  64 <= frame_height 1920 1080.
Proof.
  assert (H1 : 1 <= 1920 <= 4096) by (split; discriminate).
  assert (H2 : 1 <= 1080 <= 4096) by (split; discriminate).
  repeat (split; [assumption|]).
  destruct (frame_height_near_quotient 1920 1080 H1 H2) as [Hb [Hfit _]].
  split; [exact Hb|]. apply Hfit. discriminate.
Defined.

Lemma recorded_box_on_grid_witness :
  0 <= width tmpl_2x2 /\ 0 <= height tmpl_2x2 /\ overlay blank_ui = None /\
  forall b,
    lastBox (core (run_events tmpl_2x2
                     [AnimationFrame (black_frame 100); BellClick]
                     (initial_page blank_ui))) = Some b ->
    Box.w b = 2 /\ Box.h b = 2.
Proof.
  assert (H1 : 0 <= width tmpl_2x2) by discriminate.
  assert (H2 : 0 <= height tmpl_2x2) by discriminate.
  assert (H3 : overlay blank_ui = None) by reflexivity.
  repeat (split; [assumption|]).
  intros b Hb.
  destruct (proj2 (recorded_box_on_grid tmpl_2x2
                     [AnimationFrame (black_frame 100); BellClick]
                     blank_ui H1 H2 H3) b Hb) as [Hw [Hh _]].
  split; [exact Hw | exact Hh].
Defined.

Lemma at_most_one_gif_witness :
  (gifs_shown (ui (initial_page blank_ui)) <= 1)%nat /\
  (gifs_shown (ui (run_events tmpl_2x2 [PlaySettled; GifError gif1; Timer5s]
                              (initial_page blank_ui))) <= 1)%nat.
Proof.
  assert (H : (gifs_shown (ui (initial_page blank_ui)) <= 1)%nat)
    by (apply le_S, le_n).
  split; [exact H|].
  exact (proj1 (at_most_one_gif tmpl_2x2 [PlaySettled; GifError gif1; Timer5s]
                                (initial_page blank_ui) H)).
Defined.

Lemma page_locks_on_any_picture_witness :
  0 < width tmpl_2x2 <= 192 /\ 0 < height tmpl_2x2 /\
  spaced 0%float (map black_frame [100; 200; 300; 400; 500]%float) /\
  Forall (fits tmpl_2x2) (map black_frame [100; 200; 300; 400; 500]%float) /\
  detected (core (run_events tmpl_2x2
                    (map AnimationFrame
                         (map black_frame [100; 200; 300; 400; 500]%float))
                    (initial_page blank_ui))) = true.
Proof.
  assert (H1 : 0 < width tmpl_2x2 <= 192) by (split; [reflexivity | discriminate]).
  assert (H2 : 0 < height tmpl_2x2) by reflexivity.
  assert (H3 : spaced 0%float (map black_frame [100; 200; 300; 400; 500]%float))
    by (repeat split).
  assert (H4 : Forall (fits tmpl_2x2)
                      (map black_frame [100; 200; 300; 400; 500]%float))
    by (cbn [map]; repeat (apply Forall_cons; [apply fits_black|]);
        apply Forall_nil).
  repeat (split; [assumption|]).
  destruct (page_locks_on_any_picture tmpl_2x2
              (map black_frame [100; 200; 300; 400; 500]%float)
              blank_ui H1 H2 H3 H4) as [_ Hlock].
  exact (proj1 (Hlock (le_n 5))).
Defined.

Lemma wide_video_never_detected_witness :
  0 <= width tmpl_2x2 /\
  Forall (no_fitting_frame tmpl_2x2)
         [AnimationFrame {| now := 100; videoWidth := 4096; videoHeight := 10;
                            drawn := repeat 0 768;
                            rect := rect (black_frame 0) |};
          BellClick] /\
  detected (core (run_events tmpl_2x2
                    [AnimationFrame {| now := 100; videoWidth := 4096;
                                       videoHeight := 10;
                                       drawn := repeat 0 768;
                                       rect := rect (black_frame 0) |};
                     BellClick]
                    (initial_page blank_ui))) = false.
Proof.
  assert (H1 : 0 <= width tmpl_2x2) by discriminate.
  assert (H2 : Forall (no_fitting_frame tmpl_2x2)
                 [AnimationFrame {| now := 100; videoWidth := 4096;
                                    videoHeight := 10;
                                    drawn := repeat 0 768;
                                    rect := rect (black_frame 0) |};
                  BellClick]).
  { constructor; [|constructor; [exact I | constructor]].
    cbn [no_fitting_frame videoWidth videoHeight height tmpl_2x2].
    right. right. repeat split; discriminate || reflexivity. }
  repeat (split; [assumption|]).
  exact (proj1 (wide_video_never_detected tmpl_2x2 _ blank_ui H1 H2)).
Defined.

Lemma same_samples_frame_6x2 : same_samples frame_6x2 frame_6x2_odd.
Proof.
  split; [reflexivity|]. split; [reflexivity|].
  intros px py c Hpx Hpy Hdx Hdy Hc.
  cbn [width height frame_6x2] in *.
  assert (Ey : py = 0) by (destruct Hdy as [k Hk]; lia).
  assert (Ex : px = 0 \/ px = 2 \/ px = 4) by (destruct Hdx as [k Hk]; lia).
  assert (Ec : c = 0 \/ c = 1 \/ c = 2) by lia.
  subst py.
  destruct Ex as [-> | [-> | ->]], Ec as [-> | [-> | ->]]; reflexivity.
Defined.

Lemma same_samples_refl (a : Canvas) : same_samples a a.
Proof. split; [reflexivity|]. split; reflexivity. Defined.

Lemma findTemplate_reads_even_pixels_witness :
  0 < STEP /\ (2 | STEP) /\
  same_samples frame_6x2 frame_6x2_odd /\ same_samples tmpl_2x2 tmpl_2x2 /\
  findTemplate frame_6x2 tmpl_2x2 STEP = findTemplate frame_6x2_odd tmpl_2x2 STEP.
Proof.
  assert (H1 : 0 < STEP) by reflexivity.
  assert (H2 : (2 | STEP)) by (exists 2; reflexivity).
  pose proof same_samples_frame_6x2 as H3.
  pose proof (same_samples_refl tmpl_2x2) as H4.
  repeat (split; [assumption|]).
  exact (findTemplate_reads_even_pixels _ _ _ _ STEP H1 H2 H3 H4).
Defined.


Lemma playback_undisturbed_witness :
  detected (core {| playing := false; core := full_state; last := 0;
                    ui := blank_ui |}) = true /\
  playing {| playing := false; core := full_state; last := 0;
             ui := blank_ui |} = false /\
  Forall background [AnimationFrame (black_frame 100); BellClick] /\
  playing (run_events tmpl_2x2
             (BellClick :: [AnimationFrame (black_frame 100); BellClick]
                ++ PlaySettled :: [])
             {| playing := false; core := full_state; last := 0;
                ui := blank_ui |}) = true.
Proof.
  assert (H1 : detected (core {| playing := false; core := full_state;
                                 last := 0; ui := blank_ui |}) = true)
    by reflexivity.
  assert (H2 : playing {| playing := false; core := full_state; last := 0;
                          ui := blank_ui |} = false) by reflexivity.
  assert (H3 : Forall background [AnimationFrame (black_frame 100); BellClick])
    by (repeat constructor).
  repeat (split; [assumption|]).
  exact (proj1 (proj1 (playback_undisturbed tmpl_2x2 _ [] [] [] _ H1 H2 H3
                         (Forall_nil _) (Forall_nil _) (Forall_nil _)))).
Defined.
